(** * genologics: the XML comparator and the EPP helpers

    A shallow embedding of [genologics/xml_comparison.py] (class
    [ComparableXml]) and of the helpers [unique_check], [set_field] and
    [CopyField] of [genologics/epp.py], with the properties the
    specification states about them.

    Conventions.
    - Python strings are [string], compared character by character.
    - A dict with string keys is a [gmap string _]; every consumer in the
      modelled code sorts the items, so the dict's own order is never seen.
    - Code that can raise returns [result]; exceptions carry their class,
      its ancestors and the message.
    - The package is read as Python 3 code ([epp.py] uses f-strings):
      [ET.tostring] returns a [bytes] object and the exception classes
      have their Python 3 ancestors.
    - A well-formed document is represented by the element tree that
      [ET.fromstring] returns for it.  The parser, the serializer and the
      selectors of the path language of [findall] belong to the library
      and are parameters. *)

From Stdlib Require Import Ascii String.
From stdpp Require Import base list strings gmap functions sorting.

(** ** Python prelude: exceptions and results *)

Module Py.

Record exn := Exn {
  exn_class : string;          (* the class of the exception object *)
  exn_bases : list string;     (* its proper ancestors *)
  exn_msg : string             (* str(e) *)
}.

(** [isinstance(e, c)]: [c] is the class of [e] or one of its ancestors. *)
Definition isinstance (e : exn) (c : string) : bool :=
  bool_decide (c = exn_class e) || bool_decide (c ∈ exn_bases e).

Inductive result (A : Type) : Type :=
| Ok (a : A)
| Raise (e : exn).
Arguments Ok {A} a.
Arguments Raise {A} e.

Definition bind {A B} (k : A → result B) (r : result A) : result B :=
  match r with
  | Ok a => k a
  | Raise e => Raise e
  end.

Definition TypeError (msg : string) : exn :=
  Exn "TypeError" ["Exception"; "BaseException"] msg.

Definition SyntaxError (msg : string) : exn :=
  Exn "SyntaxError" ["Exception"; "BaseException"] msg.

(** A [str] or a [bytes] object. *)
Inductive anystr : Type :=
| Unicode (s : string)
| Bytes (b : string).

(** Truth value of an optional string: [None] and [''] are false. *)
Definition truthy (o : option string) : bool :=
  match o with
  | Some (String _ _) => true
  | _ => false
  end.

(** [''.join(l)] *)
Fixpoint join (l : list string) : string :=
  match l with
  | [] => ""
  | s :: l' => s +:+ join l'
  end.

(** Tuples of two strings compare item by item: the first items decide
    unless they are equal. *)
Definition tuple_lt (a b : string * string) : bool :=
  if bool_decide (a.1 = b.1) then String.ltb a.2 b.2 else String.ltb a.1 b.1.

(** [sorted(l, key=key)].  Python's sort is stable and uses only [<] on the
    keys; a stable sort has one possible result, computed here by
    insertion: an element goes before the first one it is smaller than. *)
Section Sorted.
Context {A K : Type} (lt : K → K → bool) (key : A → K).

Fixpoint insert_sorted (x : A) (l : list A) : list A :=
  match l with
  | [] => [x]
  | y :: l' =>
      if lt (key y) (key x) then y :: insert_sorted x l'
      else x :: y :: l'
  end.

Fixpoint sorted (l : list A) : list A :=
  match l with
  | [] => []
  | x :: l' => insert_sorted x (sorted l')
  end.

(** [x] does not come after [y] in the order of the keys. *)
Definition key_le (x y : A) : Prop := lt (key y) (key x) = false.
End Sorted.

End Py.

#[global] Instance result_bind : MBind Py.result := @Py.bind.
#[global] Instance result_ret : MRet Py.result := @Py.Ok.
#[global] Instance result_fmap : FMap Py.result :=
  λ A B f r, match r with Py.Ok a => Py.Ok (f a) | Py.Raise e => Py.Raise e end.

(** ** The part of [xml.etree.ElementTree] that the comparator uses *)

Module ET.

(** An element: tag, attribute dict, text, tail and children. *)
#[warnings="-register-all"]
Inductive Element : Type :=
| Elem (tag : string) (attrib : gmap string string)
       (text tail : option string) (children : list Element).

Definition tag (e : Element) : string := let 'Elem t _ _ _ _ := e in t.
Definition attrib (e : Element) : gmap string string :=
  let 'Elem _ a _ _ _ := e in a.
Definition text (e : Element) : option string := let 'Elem _ _ x _ _ := e in x.
Definition tail (e : Element) : option string := let 'Elem _ _ _ y _ := e in y.
Definition children (e : Element) : list Element :=
  let 'Elem _ _ _ _ cs := e in cs.

(** [element[:] = cs] *)
Definition set_children (e : Element) (cs : list Element) : Element :=
  Elem (tag e) (attrib e) (text e) (tail e) cs.

(** Induction over an element with the hypothesis for every child. *)
Fixpoint Element_ind' (P : Element → Prop)
    (f : ∀ t a x y cs, Forall P cs → P (Elem t a x y cs))
    (e : Element) : P e :=
  match e with
  | Elem t a x y cs =>
      f t a x y cs
        ((fix go (l : list Element) : Forall P l :=
            match l with
            | [] => List.Forall_nil P
            | c :: l' => List.Forall_cons P c l' (Element_ind' P f c) (go l')
            end) cs)
  end.

Fixpoint Element_eq_dec (e1 e2 : Element) {struct e1} : Decision (e1 = e2).
Proof.
  refine
    match e1, e2 with
    | Elem t1 a1 x1 y1 cs1, Elem t2 a2 x2 y2 cs2 =>
        cast_if_and5 (decide (t1 = t2)) (decide (a1 = a2))
          (decide (x1 = x2)) (decide (y1 = y2))
          ((fix go (l1 l2 : list Element) {struct l1} : Decision (l1 = l2) :=
              match l1, l2 with
              | [], [] => left _
              | c1 :: l1', c2 :: l2' =>
                  cast_if_and (Element_eq_dec c1 c2) (go l1' l2')
              | _, _ => right _
              end) cs1 cs2)
    end; clear Element_eq_dec; try clear go; congruence.
Defined.
#[global] Existing Instance Element_eq_dec.

(** [checkpath] of [_elementtree.c]: [find] and [findall] take their
    argument for a path when it has one of the characters [/ * [ @ .]
    outside braces, or starts with a wildcard namespace, [{}] or [{*}]. *)
Definition is_pathchar (ch : ascii) : bool :=
  bool_decide (ch ∈ ["/"; "*"; "["; "@"; "."]%char).

Fixpoint checkpath_go (check : bool) (tag : string) : bool :=
  match tag with
  | "" => false
  | String ch tag' =>
      if bool_decide (ch = "{"%char) then checkpath_go false tag'
      else if bool_decide (ch = "}"%char) then checkpath_go true tag'
      else if check && is_pathchar ch then true
      else checkpath_go check tag'
  end.

Definition checkpath (tag : string) : bool :=
  match tag with
  | String "{" (String "}" (String _ _)) => true
  | String "{" (String "*" (String "}" _)) => true
  | _ => checkpath_go true tag
  end.

(** [path[:1] == "/"] and [path[-1:] == "/"] *)
Definition starts_with_slash (path : string) : bool :=
  match path with
  | String c _ => bool_decide (c = "/"%char)
  | "" => false
  end.

Fixpoint ends_with_slash (path : string) : bool :=
  match path with
  | "" => false
  | String c "" => bool_decide (c = "/"%char)
  | String _ path' => ends_with_slash path'
  end.

Section ElementPath.

(** The selectors of [ElementPath.py] are not embedded: [select elem path]
    stands for what the selector compiled from the relative path [path]
    returns on [elem], or raises. *)
Context (select : Element → string → Py.result (list Element)).

(** [ElementPath.findall]: a path that ends in [/] gets a [*]; an
    absolute path is refused before anything is compiled (and so is
    never in the cache of compiled selectors). *)
Definition ElementPath_findall (elem : Element) (path : string)
  : Py.result (list Element) :=
  let path := if ends_with_slash path then path +:+ "*" else path in
  if starts_with_slash path then
    Py.Raise (Py.SyntaxError "cannot use absolute path on element")
  else select elem path.

(** [element.findall(path)]: for an argument that is not a path, the
    children of the element that carry this tag, in document order. *)
Definition findall (e : Element) (path : string) : Py.result (list Element) :=
  if checkpath path then ElementPath_findall e path
  else Py.Ok (filter (λ c, tag c = path) (children e)).

End ElementPath.

(** [list.remove(x)]: drops the first item equal to [x]; [ValueError] when
    there is none. *)
Fixpoint list_remove (x : Element) (l : list Element) : option (list Element) :=
  match l with
  | [] => None
  | y :: l' =>
      if decide (y = x) then Some l'
      else cons y <$> list_remove x l'
  end.

Definition ValueError (msg : string) : Py.exn :=
  Py.Exn "ValueError" ["Exception"; "BaseException"] msg.


(** [element.remove(sub)] *)
Definition remove (e sub : Element) : Py.result Element :=
  match list_remove sub (children e) with
  | Some cs => Py.Ok (set_children e cs)
  | None => Py.Raise (ValueError "list.remove(x): x not in list")
  end.

End ET.

(** ** [re.sub(r'\s+', repl, string)] *)

Module Re.

(** The class [\s] of a [str] pattern, for the characters below 256. *)
Definition is_whitespace (c : ascii) : bool :=
  bool_decide (c ∈ ["009"; "010"; "011"; "012"; "013"; "028"; "029"; "030";
                    "031"; " "; "133"; "160"]%char).

(** Each maximal run of whitespace is one match and is replaced by [repl];
    [in_match] tells that the previous character belonged to the match. *)
Fixpoint sub_ws_go (repl : string) (in_match : bool) (s : string) : string :=
  match s with
  | "" => ""
  | String c s' =>
      if is_whitespace c then
        (if in_match then "" else repl) +:+ sub_ws_go repl true s'
      else String c (sub_ws_go repl false s')
  end.

(** The pattern is a [str]: a [bytes] object is refused. *)
Definition sub_ws (repl : string) (subject : Py.anystr) : Py.result string :=
  match subject with
  | Py.Unicode s => Py.Ok (sub_ws_go repl false s)
  | Py.Bytes _ =>
      Py.Raise
        (Py.TypeError "cannot use a string pattern on a bytes-like object")
  end.

End Re.

(** ** [genologics/xml_comparison.py] *)

Module ComparableXml.

Import ET.

(** The object: its only attribute is [root]. *)
Record t := Make { root : Element }.

(** [_element_sort_key]: the tag followed by the attribute values, the
    items taken in sorted order. *)
Definition _element_sort_key (el : Element) : string :=
  let attrib := Py.sorted Py.tuple_lt id (map_to_list (ET.attrib el)) in
  fold_left (λ key item, key +:+ item.2) attrib (ET.tag el).

(** [_set_sorted_rec]: the children first, then the element's own list. *)
Fixpoint _set_sorted_rec (element : Element) : Element :=
  match element with
  | Elem tag attrib text tail cs =>
      Elem tag attrib text tail
        (Py.sorted String.ltb _element_sort_key (map _set_sorted_rec cs))
  end.

Section Library.

(** What the class takes from [xml.etree.ElementTree]: the parser, the
    selectors of the path language, and the serializer [ET.tostring],
    whose result with the default encoding is a [bytes] object. *)
Context (fromstring : string → Py.result Element).
Context (select : Element → string → Py.result (list Element)).
Context (ET_tostring : Element → Py.result string).

(** [_exclude_tag]: the matches are collected first, then removed one by
    one from [root]. *)
Definition _exclude_tag (root : Element) (exclude : string) : Py.result Element :=
  els ← ET.findall select root exclude;
  foldl (λ r el, root ← r; ET.remove root el) (Py.Ok root) els.

(** The body of [__init__] once the string is parsed. *)
Definition of_root (root : Element) (exclude_tag : option string) : Py.result t :=
  let root := _set_sorted_rec root in
  root ← (if Py.truthy exclude_tag then _exclude_tag root (default "" exclude_tag)
          else Py.Ok root);
  Py.Ok (Make root).


(** [tostring]: [re.sub(r'\s+', '', ET.tostring(self.root))] *)
Definition tostring (self : t) : Py.result string :=
  xml ← ET_tostring (root self);
  Re.sub_ws "" (Py.Bytes xml).

End Library.

End ComparableXml.

(** ** [genologics/epp.py] *)

Module Epp.

Import Py.

Definition EmptyError (msg : string) : exn :=
  Exn "EmptyError" ["ValueError"; "Exception"; "BaseException"] msg.

Definition NotUniqueError (msg : string) : exn :=
  Exn "NotUniqueError" ["ValueError"; "Exception"; "BaseException"] msg.

Definition SystemExit (code : string) : exn :=
  Exn "SystemExit" ["BaseException"] code.

(** [requests.HTTPError] *)
Definition HTTPError (msg : string) : exn :=
  Exn "HTTPError"
    ["RequestException"; "OSError"; "Exception"; "BaseException"] msg.

(** [unique_check(l, msg)]; returning normally is returning [None]. *)
Definition unique_check {A} (l : list A) (msg : string) : result unit :=
  if bool_decide (length l = 0) then
    Raise (EmptyError ("No item found for " +:+ msg))
  else if negb (bool_decide (length l = 1)) then
    Raise (NotUniqueError ("Multiple items found for " +:+ msg))
  else Ok tt.

(** The clause [except (TypeError, HTTPError)]. *)
Definition caught (e : exn) : bool :=
  isinstance e "TypeError" || isinstance e "HTTPError".

Section Lims.

(** What the code takes from [genologics.entities] and from the server:
    the values a field can hold with their [!=] and [str], the check
    made by [elt.udf[name] = val], and the server's answer to a PUT
    given the requests it has already received. *)
Context {value : Type}.
Context (value_ne : value → value → bool) (value_str : value → string).

(** A LIMS element as the helpers see it. *)
Record Entity := {
  id : string;
  name : string;
  _URI : string;
  udf : gmap string value;
  field : option value        (* the attribute called [field], if any *)
}.

Context (udf_setitem : Entity → string → option value → result Entity).
Context (put_response : list Entity → Entity → option exn).
Context (now : string).

(** Elements are shared objects: the state holds them by reference,
    with the requests sent so far and what was written to the log, to
    [sys.stderr] and to the open files. *)
Record State := {
  store : nat → Entity;
  requests : list Entity;
  logging : list (string * string);
  stderr : list string;
  files : gmap string (list string)
}.

Definition M (A : Type) : Type := State → result A * State.

Definition ret {A} (a : A) : M A := λ st, (Ok a, st).

Definition bindM {A B} (m : M A) (k : A → M B) : M B :=
  λ st, match m st with
        | (Ok a, st') => k a st'
        | (Raise e, st') => (Raise e, st')
        end.

Definition raise {A} (e : exn) : M A := λ st, (Raise e, st).

(** [try: body except (TypeError, HTTPError) as e: handler(e)] *)
Definition try_except {A} (body : M A) (handler : exn → M A) : M A :=
  λ st, match body st with
        | (Ok a, st') => (Ok a, st')
        | (Raise e, st') =>
            if caught e then handler e st' else (Raise e, st')
        end.

(** Python's [!=] and [str] on a value that may be [None]. *)
Definition ne (a b : option value) : bool :=
  match a, b with
  | None, None => false
  | Some x, Some y => value_ne x y
  | _, _ => true
  end.

Definition str (a : option value) : string :=
  match a with
  | None => "None"
  | Some x => value_str x
  end.

(** [element.put()]: one request with the element as it is now. *)
Definition put (element : nat) : M unit :=
  λ st,
    let e := store st element in
    let st' := {| store := store st; requests := requests st ++ [e];
                  logging := logging st; stderr := stderr st;
                  files := files st |} in
    match put_response (requests st) e with
    | None => (Ok tt, st')
    | Some ex => (Raise ex, st')
    end.

(** [elt.udf[udf_name] = val], on the shared object. *)
Definition setitem_udf (elt : nat) (udf_name : string) (val : option value)
  : M unit :=
  λ st,
    match udf_setitem (store st elt) udf_name val with
    | Ok e' =>
        (Ok tt, {| store := <[elt := e']> (store st);
                   requests := requests st; logging := logging st;
                   stderr := stderr st; files := files st |})
    | Raise ex => (Raise ex, st)
    end.

Definition log (level msg : string) : M unit :=
  λ st, (Ok tt, {| store := store st; requests := requests st;
                   logging := logging st ++ [(level, msg)];
                   stderr := stderr st; files := files st |}).

Definition print_stderr (line : string) : M unit :=
  λ st, (Ok tt, {| store := store st; requests := requests st;
                   logging := logging st;
                   stderr := stderr st ++ [line];
                   files := files st |}).

(** [f.write(s)] *)
Definition write (f : string) (s : string) : M unit :=
  λ st, (Ok tt, {| store := store st; requests := requests st;
                   logging := logging st; stderr := stderr st;
                   files := <[f := (default [] (files st !! f) ++ [s])%list]>
                              (files st) |}).

Definition get {A} (proj : State → A) : M A := λ st, (Ok (proj st), st).

(** [set_field(element)] *)
Definition set_field (element : nat) : M unit :=
  try_except (put element)
    (λ e, log "WARNING" ("Error while updating element: " +:+ exn_msg e)).

(** The attributes of a [CopyField] object. *)
Record CopyField := {
  s_elt : nat;
  s_field_name : string;
  s_field : option value;
  d_elt : nat;
  d_type : string;
  d_udf_name : string;
  old_dest_udf : option value
}.

(** [_get_field]: the udf when there is one of this name, otherwise the
    attribute [field], [None] when reading it fails. *)
Definition _get_field (elt : Entity) (field_name : string) : option value :=
  match udf elt !! field_name with
  | Some v => Some v
  | None => field elt
  end.

(** [CopyField.__init__]; an empty [d_udf_name] counts as not given. *)
Definition CopyField_init (s d : nat) (s_field_name : string)
    (d_udf_name : option string) : M CopyField :=
  λ st,
    let d_udf_name :=
      if truthy d_udf_name then default "" d_udf_name else s_field_name in
    (Ok {| s_elt := s; s_field_name := s_field_name;
           s_field := _get_field (store st s) s_field_name;
           d_elt := d; d_type := _URI (store st d);
           d_udf_name := d_udf_name;
           old_dest_udf := _get_field (store st d) d_udf_name |}, st).

(** [_set_udf]: [sys.exit(-1)] raises [SystemExit], so the [return False]
    after it is never reached. *)
Definition _set_udf (elt : nat) (udf_name : string) (val : option value)
  : M bool :=
  try_except
    (bindM (setitem_udf elt udf_name val) (λ _,
     bindM (put elt) (λ _, ret true)))
    (λ e,
     bindM (print_stderr ("Error while updating element: " +:+ exn_msg e)) (λ _,
     raise (SystemExit "-1"))).

Definition newline : string := String "010"%char "".

Definition _log_before_change (self : CopyField) (changelog_f : option string)
  : M unit :=
  bindM (match changelog_f with
         | Some f =>
             bindM (get (λ st, store st (d_elt self))) (λ d,
             write f
               (now +:+ ": udf: '" +:+ s_field_name self +:+ "' on "
                +:+ d_type self +:+ ": '" +:+ name d +:+ "' (id: " +:+ id d
                +:+ ") is changed from '" +:+ str (old_dest_udf self)
                +:+ "' to '" +:+ str (s_field self) +:+ "'." +:+ newline))
         | None => ret tt
         end) (λ _,
  bindM (get (λ st, (store st (s_elt self), store st (d_elt self)))) (λ sd,
  log "INFO" ("Copying from element with id: " +:+ id sd.1
              +:+ " to element with  id: " +:+ id sd.2))).

Definition _log_after_change (self : CopyField) : M unit :=
  log "INFO" ("Updated " +:+ d_type self +:+ " udf: " +:+ d_udf_name self
              +:+ ", from " +:+ str (old_dest_udf self) +:+ " to "
              +:+ str (s_field self) +:+ ".").

(** [copy_udf(self, changelog_f=None)] *)
Definition copy_udf (self : CopyField) (changelog_f : option string) : M bool :=
  if ne (s_field self) (old_dest_udf self) then
    bindM (_log_before_change self changelog_f) (λ _,
    bindM (_set_udf (d_elt self) (d_udf_name self) (s_field self)) (λ log,
    bindM (_log_after_change self) (λ _,
    ret log)))
  else ret false.

End Lims.

End Epp.

(** ** More of Python: indexing, [split], [rstrip], [splitlines], paths *)

Module PyStr.

Import Py.

Definition IndexError (msg : string) : exn :=
  Exn "IndexError" ["LookupError"; "Exception"; "BaseException"] msg.

Definition KeyError (key : string) : exn :=
  Exn "KeyError" ["LookupError"; "Exception"; "BaseException"] key.

(** [l[i]]: a negative index counts from the end; [IndexError] outside
    the list. *)
Definition getitem {A} (l : list A) (i : Z) : result A :=
  let j := if bool_decide (i < 0)%Z then (i + Z.of_nat (length l))%Z else i in
  if bool_decide (0 ≤ j)%Z then
    match l !! Z.to_nat j with
    | Some x => Ok x
    | None => Raise (IndexError "list index out of range")
    end
  else Raise (IndexError "list index out of range").

(** [s.startswith(p)] *)
Fixpoint startswith (p s : string) : bool :=
  match p, s with
  | "", _ => true
  | String a p', String b s' => bool_decide (a = b) && startswith p' s'
  | String _ _, "" => false
  end.

(** [s.split(sep)] for a non-empty [sep]: the occurrences are taken from
    the left and do not overlap.  [skip] counts the characters of the
    occurrence being passed, [cur] is the piece being read. *)
Fixpoint split_go (sep : string) (skip : nat) (cur : string) (s : string)
  : list string :=
  match s with
  | "" => [cur]
  | String c s' =>
      match skip with
      | S n => split_go sep n cur s'
      | 0 =>
          if startswith sep s then
            cur :: split_go sep (String.length sep - 1) "" s'
          else split_go sep 0 (cur +:+ String c "") s'
      end
  end.

Definition split (sep s : string) : list string := split_go sep 0 "" s.

(** [sep.join(l)] *)
Fixpoint join_sep (sep : string) (l : list string) : string :=
  match l with
  | [] => ""
  | [s] => s
  | s :: l' => s +:+ sep +:+ join_sep sep l'
  end.

(** [c.isspace()] for a character below 256: TAB to CR, the separators
    FS to US, space, NEL and the no-break space. *)
Definition isspace (c : ascii) : bool :=
  bool_decide (c ∈ ["009"; "010"; "011"; "012"; "013"; "028"; "029"; "030";
                    "031"; " "; "133"; "160"]%char).

(** The line boundaries of [splitlines] below 256, [\r\n] apart. *)
Definition islinebreak (c : ascii) : bool :=
  bool_decide (c ∈ ["010"; "011"; "012"; "013"; "028"; "029"; "030";
                    "133"]%char).

(** [s.rstrip()] *)
Fixpoint rstrip (s : string) : string :=
  match s with
  | "" => ""
  | String c s' =>
      match rstrip s' with
      | "" => if isspace c then "" else String c ""
      | r => String c r
      end
  end.

(** [s.splitlines()]: the lines without their ends; [\r\n] is one
    boundary; no empty last line after a final boundary.  [cur] is the
    line being read, [None] right after a boundary or at the start. *)
Fixpoint splitlines_go (cur : option string) (s : string) : list string :=
  match s with
  | "" => match cur with Some l => [l] | None => [] end
  | String c s' =>
      if islinebreak c then
        default "" cur ::
        match c, s' with
        | "013"%char, String "010" s'' => splitlines_go None s''
        | _, _ => splitlines_go None s'
        end
      else splitlines_go (Some (default "" cur +:+ String c "")) s'
  end.

Definition splitlines (s : string) : list string := splitlines_go None s.

(** [os.path.basename] and [os.path.join] of [posixpath]. *)
Fixpoint no_slash (p : string) : bool :=
  match p with
  | "" => true
  | String c p' => negb (bool_decide (c = "/"%char)) && no_slash p'
  end.

Fixpoint basename (p : string) : string :=
  match p with
  | "" => ""
  | String c p' =>
      if bool_decide (c = "/"%char) then basename p'
      else if no_slash p' then p else basename p'
  end.

Fixpoint endswith_slash (p : string) : bool :=
  match p with
  | "" => false
  | String c "" => bool_decide (c = "/"%char)
  | String _ p' => endswith_slash p'
  end.

Definition path_join (a b : string) : string :=
  if startswith "/" b then b
  else if bool_decide (a = "") || endswith_slash a then a +:+ b
  else a +:+ "/" +:+ b.

End PyStr.

(** ** [genologics/epp.py]: files, streams and result tables *)

Module EppFiles.

Import Py PyStr.

(** [attach_file(src, resource)].  [getcwd] is the current directory and
    [copy] is [shutil.copy] on a file system of type [FS]. *)
Definition attach_file {FS : Type}
    (copy : string → string → FS → result unit * FS) (getcwd : string)
    (src : string) (resource_id : string) : FS → result string * FS :=
  λ fs,
    let original_name := basename src in
    let new_name := resource_id +:+ "_" +:+ original_name in
    let dir := getcwd in
    let location := path_join dir new_name in
    match copy src location fs with
    | (Ok _, fs') => (Ok location, fs')
    | (Raise e, fs') => (Raise e, fs')
    end.

(** [StreamToLogger.write(buf)].  The state: what the duplicated stream
    has received, when there is one, and the calls of [logger.log]. *)
Record StreamToLogger := {
  log_level : nat;
  stream : option (list string);
  logged : list (nat * string)
}.

Definition StreamToLogger_write (self : StreamToLogger) (buf : string)
  : StreamToLogger :=
  {| log_level := log_level self;
     stream := (λ written, written ++ [buf]) <$> stream self;
     logged := logged self
               ++ map (λ line, (log_level self, rstrip line))
                    (splitlines (rstrip buf)) |}.

(** An artifact as [ReadResultFiles] sees it: the locations of its
    files. *)
Record File := { content_location : string }.
Record Artifact := { files : list File }.

(** [ReadResultFiles.get_file_path(artifact)] *)
Definition get_file_path (artifact : Artifact) : result (option string) :=
  if bool_decide (0 < length (files artifact)) then
    file ← getitem (files artifact) 0;
    file_path ← getitem (split "scilifelab.se" (content_location file)) 1;
    if bool_decide (1 < length (split "." file_path)) then Ok (Some file_path)
    else Ok None
  else Ok None.

(** The values of a row dict of [format_file]: a string, or the tuple
    made for a column without a name. *)
Inductive cell : Type :=
| Str (s : string)
| Tupl (a : cell) (b : string).

#[global] Instance cell_eq_dec : EqDecision cell.
Proof. solve_decision. Defined.

(** The argument [first_header]: [None], a string or a list. *)
Inductive header_arg : Type :=
| HNone
| HStr (s : string)
| HList (l : list string).

(** The first lines of [format_file]: [first_header] as a list. *)
Definition header_list (first_header : header_arg) : list string :=
  match first_header with
  | HList l => l
  | HStr (String c s) => [String c s]
  | _ => []
  end.

Definition exeptions : list string := ["Sample"; "Fail"; ""].

(** The variables of the loop of [format_file]. *)
Record table_state := {
  file_info : gmap string (gmap string cell);
  keys : list string;
  duplicated_lines : list string
}.

(** One round of [for col in range(len(keys))], on the dict of the row. *)
Definition fill_col (keys line : list string)
    (d : result (gmap string cell)) (col : nat) : result (gmap string cell) :=
  d ← d;
  k ← getitem keys (Z.of_nat col);
  if bool_decide (k ≠ "") then
    v ← getitem line (Z.of_nat col);
    Ok (<[k := Str v]> d)
  else
    kp ← getitem keys (Z.of_nat col - 1);
    if bool_decide (kp ≠ "") then
      match d !! kp with
      | Some old =>
          v ← getitem line (Z.of_nat col);
          Ok (<[kp := Tupl old v]> d)
      | None => Raise (KeyError kp)
      end
    else Ok d.

(** The loop body, first statement: [if keys and len(line) == len(keys)],
    the row is read as data. *)
Definition table_row (root_key_col : Z) (find_keys : list string)
    (st : table_state) (line : list string) : result table_state :=
  if negb (bool_decide (keys st = []))
     && bool_decide (length line = length (keys st)) then
    root_key ← getitem line root_key_col;
    let cond1 := bool_decide (find_keys = [])
                 && negb (bool_decide (root_key ∈ exeptions)) in
    let cond2 := bool_decide (root_key ∈ find_keys) in
    if bool_decide (is_Some (file_info st !! root_key)) then
      Ok {| file_info := file_info st; keys := keys st;
            duplicated_lines := duplicated_lines st ++ [root_key] |}
    else if cond1 || cond2 then
      d ← (if bool_decide (duplicated_lines st = []) then
             foldl (fill_col (keys st) line) (Ok ∅)
                   (seq 0 (length (keys st)))
           else Ok ∅);
      Ok {| file_info := <[root_key := d]> (file_info st);
            keys := keys st;
            duplicated_lines := duplicated_lines st |}
    else Ok st
  else Ok st.

(** The loop body, second part: [head] and the choice of a new header. *)
Definition table_header (first_header : list string) (header_row : option Z)
    (root_key_col : Z) (st : table_state) (row : nat) (line : list string)
  : result table_state :=
  head ←
    (if bool_decide (root_key_col < Z.of_nat (length line))%Z then
       Some <$> getitem line root_key_col
     else Ok None);
  if negb (bool_decide (first_header = []))
     && match head with
        | Some h => bool_decide (h ∈ first_header)
        | None => false
        end then
    Ok {| file_info := file_info st; keys := line;
          duplicated_lines := duplicated_lines st |}
  else if match header_row with
          | Some r => negb (bool_decide (r = 0%Z))
                      && bool_decide (Z.of_nat row = r)
          | None => false
          end then
    Ok {| file_info := file_info st; keys := line;
          duplicated_lines := duplicated_lines st |}
  else Ok st.

(** The body of [for row, line in enumerate(parsed_file)]. *)
Definition table_step (first_header : list string) (header_row : option Z)
    (root_key_col : Z) (find_keys : list string)
    (st : result table_state) (row_line : nat * list string)
  : result table_state :=
  st ← st;
  st ← table_row root_key_col find_keys st row_line.2;
  table_header first_header header_row root_key_col st row_line.1 row_line.2.

(** [format_file]: what is printed to [sys.stderr], and the result. *)
Definition format_file (parsed_file : list (list string)) (name : string)
    (first_header : header_arg) (header_row : option Z) (root_key_col : Z)
    (find_keys : list string)
  : list string * result (gmap string (gmap string cell)) :=
  let first_header := header_list first_header in
  match foldl (table_step first_header header_row root_key_col find_keys)
              (Ok {| file_info := ∅; keys := []; duplicated_lines := [] |})
              (imap (λ row line, (row, line)) parsed_file) with
  | Raise e => ([], Raise e)
  | Ok st =>
      let error_message :=
        if bool_decide (duplicated_lines st = []) then ""
        else "Row names " +:+ join_sep "," (duplicated_lines st)
             +:+ " occurs more than once in file " +:+ name
             +:+ ". Fix the file to continue. " in
      let error_message :=
        if bool_decide (file_info st = ∅) then
          error_message +:+ "Could not format parsed file " +:+ name +:+ "."
        else error_message in
      if bool_decide (error_message = "") then ([], Ok (file_info st))
      else ([error_message], Raise (Epp.SystemExit "-1"))
  end.

End EppFiles.

(** ** Vocabulary of the specification *)

Module Spec.

Import ET ComparableXml.

(** [element.iter()]: the element and its descendants, in document order. *)
Fixpoint iter (e : Element) : list Element :=
  match e with
  | Elem _ _ _ _ cs => e :: concat (map iter cs)
  end.

Fixpoint string_forall (p : ascii → bool) (s : string) : bool :=
  match s with
  | "" => true
  | String c s' => p c && string_forall p s'
  end.

Section Library.

Context (select : Element → string → Py.result (list Element)).
Context (ET_tostring : Element → Py.result string).

(** The canonical form of a document, as the tests obtain it:
    [ComparableXml(resource, exclude_tag=t).tostring()]. *)
Definition canonical (resource : Element) (exclude_tag : option string)
  : Py.result string :=
  self ← of_root select resource exclude_tag;
  ComparableXml.tostring ET_tostring self.

(** [tests/test_xml_comparison.py]: [_parse], whose results the tests
    compare with [assertEqual]. *)
Definition _parse (resource : Element) : Py.result string :=
  canonical resource (Some "qc-flag").

End Library.

(** An exclude tag that [findall] does not take for a path: none, the
    empty string, or a tag name without path characters. *)
Definition plain_tag (exclude_tag : option string) : Prop :=
  checkpath (default "" exclude_tag) = false.

(** What exclusion leaves of a tree: with a non-empty tag name, the tree
    without the children of the root that carry this tag; otherwise the
    tree itself. *)
Definition pruned (exclude_tag : option string) (root : Element) : Element :=
  if Py.truthy exclude_tag then
    set_children root
      (filter (λ c, tag c ≠ default "" exclude_tag) (children root))
  else root.

(** Siblings that share a sort key appear in the same order in both lists. *)
Definition ties_kept (cs1 cs2 : list Element) : Prop :=
  ∀ k, filter (λ c, _element_sort_key c = k) cs1
       = filter (λ c, _element_sort_key c = k) cs2.

(** An element without the text that follows its end tag (its tail), and
    a tree without any tail. *)
Definition untailed (e : Element) : Element :=
  Elem (tag e) (attrib e) (text e) None (children e).

Fixpoint strip_tails (e : Element) : Element :=
  match e with
  | Elem t a x _ cs => Elem t a x None (map strip_tails cs)
  end.

(** Two documents that differ only in the order of sibling elements, at
    any depth: under each element the same child elements stand in
    another order, and the text between them stays where it is in the
    document, so that the tail of a moved element is the text of the
    place it moves to.  [side] restricts the reorderings of one list of
    siblings. *)
#[warnings="-register-all"]
Inductive reordered (side : list Element → list Element → Prop)
  : Element → Element → Prop :=
| reordered_elem t a x y cs1 cs' cs2 :
    Forall2 (reordered side) cs1 cs' →
    untailed <$> cs' ≡ₚ untailed <$> cs2 →
    tail <$> cs' = tail <$> cs2 →
    side (untailed <$> cs') (untailed <$> cs2) →
    reordered side (Elem t a x y cs1) (Elem t a x y cs2).

Definition any_order : list Element → list Element → Prop := λ _ _, True.


(** What a start tag shows of an element: its tag and its attributes. *)
Definition start_tag (e : Element) : string * gmap string string :=
  (tag e, attrib e).

(** Sample documents. *)
Definition leaf (t : string) (x : option string) : Element :=
  Elem t ∅ x None [].

(** [<r><b><t/></b></r>] *)
Definition nested_doc : Element :=
  Elem "r" ∅ None None [Elem "b" ∅ None None [leaf "t" None]].

(** [<r><a>1</a><a>2</a></r>] and [<r><a>2</a><a>1</a></r>] *)
Definition ties_doc1 : Element :=
  Elem "r" ∅ None None [leaf "a" (Some "1"); leaf "a" (Some "2")].
Definition ties_doc2 : Element :=
  Elem "r" ∅ None None [leaf "a" (Some "2"); leaf "a" (Some "1")].

(** A line break, alone and followed by the indentation of a child. *)
Definition line_end : string := String "010" "".
Definition line_indent : string := String "010" "  ".

(** The pretty-printed documents
    [<r>
       <b><y/><x/></b>
       <a/>
     </r>]
    and
    [<r>
       <a/>
       <b><x/><y/></b>
     </r>] *)
Definition order_doc1 : Element :=
  Elem "r" ∅ (Some line_indent) None
    [Elem "b" ∅ None (Some line_indent) [leaf "y" None; leaf "x" None];
     Elem "a" ∅ None (Some line_end) []].
Definition order_doc2 : Element :=
  Elem "r" ∅ (Some line_indent) None
    [Elem "a" ∅ None (Some line_indent) [];
     Elem "b" ∅ None (Some line_end) [leaf "x" None; leaf "y" None]].

(** [<r>hello<a/>world<b/></r>] and [<r>hello<b/>world<a/></r>] *)
Definition mixed_doc1 : Element :=
  Elem "r" ∅ (Some "hello") None
    [Elem "a" ∅ None (Some "world") []; Elem "b" ∅ None None []].
Definition mixed_doc2 : Element :=
  Elem "r" ∅ (Some "hello") None
    [Elem "b" ∅ None (Some "world") []; Elem "a" ∅ None None []].

(** [<r><t/><b><t/></b></r>] *)
Definition flagged_doc : Element :=
  Elem "r" ∅ None None [leaf "t" None; Elem "b" ∅ None None [leaf "t" None]].




(** A sample LIMS: string values, a server that refuses every request,
    one element everywhere in the store. *)
Definition string_ne (a b : string) : bool := negb (bool_decide (a = b)).

Definition sample_entity : @Epp.Entity string :=
  {| Epp.id := "2-1"; Epp.name := "sample"; Epp._URI := "artifacts";
     Epp.udf := {["Comment" := "ok"]}; Epp.field := None |}.

Definition sample_setitem (e : @Epp.Entity string) (k : string)
    (v : option string) : Py.result (@Epp.Entity string) :=
  Py.Ok {| Epp.id := Epp.id e; Epp.name := Epp.name e;
           Epp._URI := Epp._URI e;
           Epp.udf := match v with
                      | Some x => <[k := x]> (Epp.udf e)
                      | None => delete k (Epp.udf e)
                      end;
           Epp.field := Epp.field e |}.

Definition refusing_server (_ : list (@Epp.Entity string))
    (_ : @Epp.Entity string) : option Py.exn :=
  Some (Epp.HTTPError "400 Client Error").

Definition sample_state : @Epp.State string :=
  {| Epp.store := λ _, sample_entity; Epp.requests := [];
     Epp.logging := []; Epp.stderr := []; Epp.files := ∅ |}.

Definition sample_copy (s d : option string) : @Epp.CopyField string :=
  {| Epp.s_elt := 0; Epp.s_field_name := "Comment"; Epp.s_field := s;
     Epp.d_elt := 1; Epp.d_type := "artifacts"; Epp.d_udf_name := "Comment";
     Epp.old_dest_udf := d |}.

End Spec.

(** ** Further vocabulary *)

Module More.

Import ET ComparableXml Spec.

(** [dict(items)]: a later item replaces an earlier one with the same
    key. *)
Definition dict_of {V : Type} (items : list (string * V)) : gmap string V :=
  foldl (λ d kv, <[kv.1 := kv.2]> d) ∅ items.

(** The name of a row of a result table: its first cell. *)
Definition row_name (line : list string) : string := default "" (head line).

(** The row dict that [format_file] builds when every column has a
    name: [dict(zip(keys, line))]. *)
Definition row_dict (header line : list string) : gmap string EppFiles.cell :=
  dict_of (zip header (EppFiles.Str <$> line)).

(** A plain table: the header line, recognised by its first cell, names
    every column; each row has one cell per column, and its name is
    neither a header name nor one of the names that are skipped. *)
Definition plain_table (first_header header : list string)
    (rows : list (list string)) : Prop :=
  (∃ h0, head header = Some h0 ∧ h0 ∈ first_header)
  ∧ Forall (λ h, h ≠ "") header
  ∧ Forall (λ r, length r = length header
                 ∧ row_name r ∉ first_header
                 ∧ row_name r ∉ EppFiles.exeptions) rows.

(** A result table: concentrations and volumes of two samples. *)
Definition sample_header : list string := ["Sample ID"; "Conc"; "Vol"].
Definition sample_rows : list (list string) :=
  [["P1"; "2.5"; "10"]; ["P2"; "3.1"; "12"]].

(** A server that accepts every request, and a udf dictionary that
    rejects every assignment, as [UdfDictionary.__setitem__] does for a
    value of a type the udf does not take. *)
Definition accepting_server (_ : list (@Epp.Entity string))
    (_ : @Epp.Entity string) : option Py.exn := None.

Definition rejecting_setitem (_ : @Epp.Entity string) (_ : string)
    (_ : option string) : Py.result (@Epp.Entity string) :=
  Py.Raise (Py.TypeError "String UDF requires str or unicode value").

End More.

(** * Properties *)

Import Py ET ComparableXml Spec More.

(** ** [unique_check] *)

(** C8: [unique_check(l, msg)] raises [EmptyError] when [l] is empty,
    raises [NotUniqueError] when [l] has more than one element, and returns
    normally, with no value and no effect, exactly when [l] has length
    one. *)
Theorem unique_check_spec {A} (l : list A) (msg : string) :
  (length l = 0 →
     Epp.unique_check l msg = Raise (Epp.EmptyError ("No item found for " +:+ msg))) ∧
  (1 < length l →
     Epp.unique_check l msg
     = Raise (Epp.NotUniqueError ("Multiple items found for " +:+ msg))) ∧
  (Epp.unique_check l msg = Ok tt ↔ length l = 1).
Proof.
  unfold Epp.unique_check.
  destruct l as [|a [|b l]]; simpl; repeat split; intros; try lia; done.
Qed.

Lemma unique_check_spec_witness :
  Epp.unique_check ([] : list nat) "artifact"
    = Raise (Epp.EmptyError "No item found for artifact")
  ∧ Epp.unique_check [1; 2] "artifact"
    = Raise (Epp.NotUniqueError "Multiple items found for artifact")
  ∧ Epp.unique_check [7] "artifact" = Ok tt.
Proof.
  split; [|split].
  - apply (proj1 (unique_check_spec ([] : list nat) "artifact")). reflexivity.
  - apply (proj1 (proj2 (unique_check_spec [1; 2] "artifact"))). simpl. lia.
  - apply (proj2 (proj2 (unique_check_spec [7] "artifact"))). reflexivity.
Defined.

(** ** [set_field] and [CopyField] *)

Section LimsFacts.

Import Epp.

Context {value : Type}.
Context (value_ne : value → value → bool) (value_str : value → string).
Context (udf_setitem : @Entity value → string → option value
                       → result (@Entity value)).
Context (put_response : list (@Entity value) → @Entity value → option exn).
Context (now : string).

Abbreviation put := (put put_response).
Abbreviation set_field := (set_field put_response).
Abbreviation copy_udf := (copy_udf value_ne value_str udf_setitem put_response now).
Abbreviation ne := (ne value_ne).

Lemma put_requests element (st : State) :
  requests (put element st).2 = (requests st ++ [store st element])%list.
Proof. unfold Epp.put. by destruct (put_response _ _). Qed.

Lemma put_frame element (st : State) :
  let st' := (put element st).2 in
  store st' = store st ∧ logging st' = logging st
  ∧ stderr st' = stderr st ∧ files st' = files st.
Proof. unfold Epp.put. by destruct (put_response _ _). Qed.

(** C9: when [element.put()] raises a [TypeError] or an [HTTPError],
    [set_field] returns normally and logs one warning that carries the
    error's message; an exception of any other class leaves [set_field]
    as it was raised; and when [put] returns, so does [set_field], with
    nothing logged. *)
Theorem set_field_suppresses element (st st1 : State) (r : result unit) :
  put element st = (r, st1) →
  match r with
  | Ok _ => set_field element st = (Ok tt, st1)
  | Raise e =>
      if isinstance e "TypeError" || isinstance e "HTTPError" then
        set_field element st
        = (Ok tt,
           {| store := store st1; requests := requests st1;
              logging := (logging st1
                ++ [("WARNING", "Error while updating element: "
                                +:+ exn_msg e)])%list;
              stderr := stderr st1; files := files st1 |})
      else set_field element st = (Raise e, st1)
  end.
Proof.
  intros Hput. unfold Epp.set_field, try_except. rewrite Hput.
  destruct r as [[]|e]; [done|]. unfold caught.
  by destruct (isinstance e "TypeError" || isinstance e "HTTPError").
Qed.

(** C10: when the source value equals the recorded destination value,
    [copy_udf] returns [False] and leaves the whole state as it was: no
    request is sent, nothing is written to the changelog or logged, and
    the destination element is untouched.  A run of [copy_udf] that
    sends a request is a run in which the two values differ, and when
    they differ and the assignment to the udf is accepted, exactly one
    request is sent, for the updated destination element. *)
Theorem copy_udf_equal_values (self : CopyField) (changelog_f : option string)
    (st : State) :
  (ne (s_field self) (old_dest_udf self) = false →
     copy_udf self changelog_f st = (Ok false, st)) ∧
  (requests (copy_udf self changelog_f st).2 ≠ requests st →
     ne (s_field self) (old_dest_udf self) = true) ∧
  (∀ d', ne (s_field self) (old_dest_udf self) = true →
     udf_setitem (store st (d_elt self)) (d_udf_name self) (s_field self)
       = Ok d' →
     requests (copy_udf self changelog_f st).2
       = (requests st ++ [d'])%list).
Proof.
  unfold Epp.copy_udf. split; [|split].
  - by intros ->.
  - destruct (ne _ _); [done|]. simpl. by intros [].
  - intros d' -> Hset.
    unfold bindM, _log_before_change, _set_udf, try_except, bindM,
      setitem_udf, Epp.put, write, log, get, ret, _log_after_change,
      print_stderr, raise.
    destruct changelog_f; simpl; rewrite Hset; simpl;
      rewrite fn_lookup_insert;
      destruct (put_response _ _) as [e|]; simpl; try done;
      by destruct (caught e).
Qed.

End LimsFacts.

Lemma set_field_suppresses_witness :
  Epp.set_field refusing_server 0 sample_state
  = (Ok tt,
     {| Epp.store := λ _, sample_entity; Epp.requests := [sample_entity];
        Epp.logging :=
          [("WARNING", "Error while updating element: 400 Client Error")];
        Epp.stderr := []; Epp.files := ∅ |}).
Proof.
  exact (set_field_suppresses refusing_server 0 sample_state _
           (Raise (Epp.HTTPError "400 Client Error")) eq_refl).
Defined.

Lemma copy_udf_equal_values_witness :
  Epp.ne string_ne (Some "ok") (Some "ok") = false
  ∧ Epp.copy_udf string_ne id sample_setitem refusing_server "2013-05-01 12:00:00"
      (sample_copy (Some "ok") (Some "ok")) (Some "changelog") sample_state
    = (Ok false, sample_state)
  ∧ Epp.ne string_ne (Some "new") (Some "ok") = true
  ∧ Epp.requests
      (Epp.copy_udf string_ne id sample_setitem refusing_server
         "2013-05-01 12:00:00"
         (sample_copy (Some "new") (Some "ok")) (Some "changelog")
         sample_state).2
    = [{| Epp.id := "2-1"; Epp.name := "sample"; Epp._URI := "artifacts";
          Epp.udf := <["Comment" := "new"]> {["Comment" := "ok"]};
          Epp.field := None |}].
Proof.
  split; [reflexivity|]. split.
  - apply (proj1 (copy_udf_equal_values string_ne id sample_setitem
                    refusing_server "2013-05-01 12:00:00"
                    (sample_copy (Some "ok") (Some "ok")) (Some "changelog")
                    sample_state)).
    reflexivity.
  - split; [reflexivity|].
    apply (proj2 (proj2 (copy_udf_equal_values string_ne id sample_setitem
                           refusing_server "2013-05-01 12:00:00"
                           (sample_copy (Some "new") (Some "ok"))
                           (Some "changelog") sample_state))).
    + reflexivity.
    + reflexivity.
Defined.

(** ** The stable sort *)

Section SortedFacts.

Context {A K : Type} `{EqDecision K} (lt : K → K → bool) (key : A → K).
Hypothesis lt_irrefl : ∀ a, lt a a = false.
Hypothesis lt_trans : ∀ a b c, lt a b = true → lt b c = true → lt a c = true.
Hypothesis lt_total : ∀ a b, lt a b = false → lt b a = false → a = b.

Abbreviation key_le := (key_le lt key).
Abbreviation insert_sorted := (insert_sorted lt key).
Abbreviation sorted := (sorted lt key).
Abbreviation has_key k := (λ x, key x = k).

Lemma lt_asym a b : lt a b = true → lt b a = false.
Proof.
  intros Hab. destruct (lt b a) eqn:Hba; [|done].
  by rewrite <-(lt_irrefl a), (lt_trans a b a).
Qed.

Lemma key_le_trans x y z : key_le x y → key_le y z → key_le x z.
Proof.
  unfold key_le. intros Hxy Hyz.
  destruct (lt (key z) (key x)) eqn:Hzx; [|done].
  destruct (lt (key x) (key y)) eqn:Hlt.
  - by rewrite (lt_trans _ _ _ Hzx Hlt) in Hyz.
  - assert (key x = key y) as Heq by by apply lt_total.
    rewrite Heq in Hzx. congruence.
Qed.

Lemma insert_sorted_perm x l : insert_sorted x l ≡ₚ x :: l.
Proof.
  induction l as [|y l IH]; simpl; [done|].
  destruct (lt (key y) (key x)); [|done].
  by rewrite IH, Permutation_swap.
Qed.

Lemma sorted_perm l : sorted l ≡ₚ l.
Proof.
  induction l as [|x l IH]; simpl; [done|].
  by rewrite insert_sorted_perm, IH.
Qed.

Lemma filter_insert_sorted k x l :
  filter (has_key k) (insert_sorted x l) = filter (has_key k) (x :: l).
Proof.
  induction l as [|y l IH]; simpl; [done|].
  destruct (lt (key y) (key x)) eqn:Hlt; [|done].
  rewrite !filter_cons in *.
  destruct (decide (key y = k)) as [Hy|Hy],
    (decide (key x = k)) as [Hx|Hx]; try by rewrite IH.
  rewrite Hy, Hx, lt_irrefl in Hlt. done.
Qed.

(** The sort is stable: elements with the same key keep their order. *)
Lemma sorted_stable k l :
  filter (has_key k) (sorted l) = filter (has_key k) l.
Proof.
  induction l as [|x l IH]; simpl; [done|].
  by rewrite filter_insert_sorted, !filter_cons, IH.
Qed.

Lemma insert_sorted_StronglySorted x l :
  StronglySorted key_le l → StronglySorted key_le (insert_sorted x l).
Proof.
  induction 1 as [|y l Hl IH Hy]; simpl; [by repeat constructor|].
  destruct (lt (key y) (key x)) eqn:Hlt.
  - constructor; [done|]. rewrite insert_sorted_perm.
    constructor; [|done]. by apply lt_asym.
  - constructor; [by constructor|]. constructor; [done|].
    eapply Forall_impl; [done|]. intros z Hz. by eapply key_le_trans.
Qed.

Lemma sorted_StronglySorted l : StronglySorted key_le (sorted l).
Proof.
  induction l; simpl; [constructor|by apply insert_sorted_StronglySorted].
Qed.

Lemma filter_has_key_elem x l : x ∈ l → filter (has_key (key x)) l ≠ [].
Proof.
  intros Hx Hnil. assert (x ∈ filter (has_key (key x)) l) as Hin
    by by apply list_elem_of_filter.
  rewrite Hnil in Hin. by apply not_elem_of_nil in Hin.
Qed.

Lemma filter_nonempty_elem k l :
  filter (has_key k) l ≠ [] → ∃ x, x ∈ l ∧ key x = k.
Proof.
  destruct (filter (has_key k) l) as [|x l'] eqn:Hf; [done|]. intros _.
  assert (x ∈ filter (has_key k) l) as Hin by (rewrite Hf; left).
  apply list_elem_of_filter in Hin as [? ?]. by exists x.
Qed.

(** The first elements of two lists in key order with the same ties
    have the same key. *)
Lemma heads_same_key x l1 y l2 :
  StronglySorted key_le (x :: l1) →
  (∀ k, filter (has_key k) (x :: l1) = filter (has_key k) (y :: l2)) →
  lt (key y) (key x) = false.
Proof.
  intros Hs Hf. destruct (decide (key y = key x)) as [->|Hne];
    [by apply lt_irrefl|].
  destruct (filter_nonempty_elem (key y) (x :: l1)) as (z & Hz & Hk).
  { rewrite Hf. apply filter_has_key_elem. left. }
  apply elem_of_cons in Hz as [->|Hz]; [done|].
  apply StronglySorted_inv in Hs as [_ Hall].
  rewrite Forall_forall in Hall. rewrite <-Hk. by apply Hall.
Qed.

(** A list in key order is determined by its ties. *)
Lemma StronglySorted_ties_unique l1 l2 :
  StronglySorted key_le l1 → StronglySorted key_le l2 →
  (∀ k, filter (has_key k) l1 = filter (has_key k) l2) →
  l1 = l2.
Proof.
  revert l2. induction l1 as [|x l1 IH]; intros [|y l2] Hs1 Hs2 Hf.
  - done.
  - specialize (Hf (key y)). rewrite filter_cons_True in Hf by done. done.
  - specialize (Hf (key x)). rewrite filter_cons_True in Hf by done. done.
  - assert (key x = key y) as Hk.
    { apply lt_total; [eapply heads_same_key|eapply heads_same_key]; eauto. }
    assert (x = y ∧ ∀ k, filter (has_key k) l1 = filter (has_key k) l2)
      as [-> Hf'].
    { split.
      - specialize (Hf (key x)).
        rewrite filter_cons_True, (filter_cons_True _ y) in Hf by done.
        congruence.
      - intros k. specialize (Hf k). rewrite !filter_cons in Hf.
        rewrite <-Hk in Hf. destruct (decide (key x = k)); congruence. }
    f_equal. apply IH; [|by eapply StronglySorted_inv|done].
    by eapply StronglySorted_inv.
Qed.

(** The result of the sort depends only on the order of the ties. *)
Lemma sorted_ext l1 l2 :
  (∀ k, filter (has_key k) l1 = filter (has_key k) l2) →
  sorted l1 = sorted l2.
Proof.
  intros Hf. apply StronglySorted_ties_unique;
    [apply sorted_StronglySorted..|].
  intros k. by rewrite !sorted_stable.
Qed.

End SortedFacts.

(** ** Strings and their order *)

Lemma app_String a s t : String a s +:+ t = String a (s +:+ t).
Proof. done. Qed.

Lemma app_empty_l s : "" +:+ s = s.
Proof. done. Qed.

Lemma app_empty_r s : s +:+ "" = s.
Proof. induction s as [|a s IH]; [done|]. by rewrite app_String, IH. Qed.

Lemma app_assoc_s s t u : (s +:+ t) +:+ u = s +:+ (t +:+ u).
Proof. induction s as [|a s IH]; [done|]. by rewrite !app_String, IH. Qed.

Lemma app_inv_tail_s s t u : s +:+ u = t +:+ u → s = t.
Proof.
  intros Heq.
  assert (∀ v w, list_ascii_of_string (v +:+ w)
                 = list_ascii_of_string v ++ list_ascii_of_string w)
    as Happ.
  { induction v as [|a v IH]; intros w; [done|].
    rewrite app_String. simpl. by rewrite IH. }
  apply (f_equal list_ascii_of_string) in Heq. rewrite !Happ in Heq.
  apply (inj (λ l, l ++ _)) in Heq.
  by rewrite <-(string_of_list_ascii_of_string s), Heq,
    string_of_list_ascii_of_string.
Qed.

Lemma ltb_leb a b : String.ltb a b = negb (String.leb b a).
Proof.
  unfold String.ltb, String.leb. rewrite (String.compare_antisym a b).
  by destruct (b ?= a)%string.
Qed.

Lemma ltb_irrefl a : String.ltb a a = false.
Proof.
  rewrite ltb_leb. apply negb_false_iff, Is_true_true.
  apply (reflexivity (R := String.le)).
Qed.

Lemma ltb_trans a b c :
  String.ltb a b = true → String.ltb b c = true → String.ltb a c = true.
Proof.
  rewrite !ltb_leb, !negb_true_iff. intros Hba Hcb.
  apply not_true_iff_false. intros Hca%Is_true_true.
  destruct (total String.le a b) as [Hab|Hab%Is_true_true]; [|congruence].
  assert (String.le c b) as Hcb'%Is_true_true by by etrans.
  congruence.
Qed.

Lemma ltb_total a b :
  String.ltb a b = false → String.ltb b a = false → a = b.
Proof.
  rewrite !ltb_leb, !negb_false_iff. intros. by apply String.leb_antisym.
Qed.

Lemma tuple_lt_irrefl a : tuple_lt a a = false.
Proof. unfold tuple_lt. rewrite bool_decide_true by done. apply ltb_irrefl. Qed.

Lemma tuple_lt_trans a b c :
  tuple_lt a b = true → tuple_lt b c = true → tuple_lt a c = true.
Proof.
  unfold tuple_lt. intros Hab Hbc.
  destruct (decide (a.1 = b.1)) as [E1|N1], (decide (b.1 = c.1)) as [E2|N2].
  - rewrite bool_decide_true in * by congruence. by eapply ltb_trans.
  - rewrite bool_decide_true in Hab by done.
    rewrite bool_decide_false in Hbc by done.
    rewrite bool_decide_false by congruence. by rewrite E1.
  - rewrite bool_decide_false in Hab by done.
    rewrite bool_decide_false by congruence. by rewrite <-E2.
  - rewrite bool_decide_false in Hab, Hbc by done.
    assert (String.ltb a.1 c.1 = true) as Hac by by eapply ltb_trans.
    case_bool_decide as E3; [|done].
    rewrite E3, ltb_irrefl in Hac. done.
Qed.

Lemma tuple_lt_total a b :
  tuple_lt a b = false → tuple_lt b a = false → a = b.
Proof.
  unfold tuple_lt. destruct a as [a1 a2], b as [b1 b2]; simpl.
  intros Hab Hba. destruct (decide (a1 = b1)) as [->|N].
  - rewrite bool_decide_true in * by done. f_equal. by apply ltb_total.
  - rewrite bool_decide_false in * by congruence.
    exfalso. eauto using ltb_total.
Qed.

(** ** Normalization *)

Lemma StronglySorted_impl {A} (R1 R2 : A → A → Prop) (l : list A) :
  (∀ x y, R1 x y → R2 x y) → StronglySorted R1 l → StronglySorted R2 l.
Proof.
  intros HR. induction 1 as [|x l Hl IH Hx]; constructor; [done|].
  eapply Forall_impl; [done|]. intros y. apply HR.
Qed.

Abbreviation sorted_items a := (sorted tuple_lt id (map_to_list a)).
Abbreviation has_sort_key k := (λ c, _element_sort_key c = k).

Lemma set_sorted_rec_tag e : tag (_set_sorted_rec e) = tag e.
Proof. by destruct e. Qed.

Lemma set_sorted_rec_attrib e : attrib (_set_sorted_rec e) = attrib e.
Proof. by destruct e. Qed.

Lemma set_sorted_rec_key e :
  _element_sort_key (_set_sorted_rec e) = _element_sort_key e.
Proof. by destruct e. Qed.

Lemma fold_left_key (items : list (string * string)) (s : string) :
  fold_left (λ key item, key +:+ item.2) items s = s +:+ join (items.*2).
Proof.
  revert s. induction items as [|i items IH]; intros s; simpl.
  - by rewrite app_empty_r.
  - by rewrite IH, app_assoc_s.
Qed.

Lemma sorted_items_perm (a : gmap string string) :
  sorted_items a ≡ₚ map_to_list a.
Proof. apply sorted_perm. Qed.

(** The sorted items are in strictly ascending order of attribute name. *)
Lemma sorted_items_ascending (a : gmap string string) :
  StronglySorted (λ i j, String.ltb i.1 j.1 = true) (sorted_items a).
Proof.
  assert (NoDup (sorted_items a).*1) as Hnd.
  { rewrite sorted_items_perm. apply NoDup_fst_map_to_list. }
  pose proof (sorted_StronglySorted tuple_lt id tuple_lt_irrefl
                tuple_lt_trans tuple_lt_total (map_to_list a)) as Hs.
  induction Hs as [|i l Hl IH Hi]; [constructor|].
  rewrite fmap_cons in Hnd. apply NoDup_cons in Hnd as [Hnotin Hnd].
  constructor; [by apply IH|].
  rewrite Forall_forall in Hi. apply Forall_forall. intros j Hj.
  specialize (Hi j Hj). unfold key_le, tuple_lt, id in Hi.
  assert (j.1 ≠ i.1) as Hne.
  { intros Heq. apply Hnotin. rewrite <-Heq. by apply list_elem_of_fmap_2. }
  rewrite bool_decide_false in Hi by done.
  destruct (String.ltb i.1 j.1) eqn:Hlt; [done|].
  exfalso. by eauto using ltb_total.
Qed.

(** C3: normalization keeps the element's own tag, attributes, text and
    tail; its children are the normalized children of the original (so
    every child is normalized before the list is sorted), arranged in
    ascending order of the sort key with ties left in their original
    order.  The key of an element is its tag followed by its attribute
    values, the attributes taken in ascending order of name; it is the
    same for any text, tail and children. *)
Theorem set_sorted_rec_spec (element : Element) :
  let norm := _set_sorted_rec element in
  (tag norm = tag element ∧ attrib norm = attrib element
   ∧ text norm = text element ∧ tail norm = tail element)
  ∧ children norm ≡ₚ map _set_sorted_rec (children element)
  ∧ StronglySorted
      (λ c1 c2, String.le (_element_sort_key c1) (_element_sort_key c2))
      (children norm)
  ∧ (∀ k, filter (has_sort_key k) (children norm)
          = filter (has_sort_key k) (map _set_sorted_rec (children element)))
  ∧ (∃ items,
       items ≡ₚ map_to_list (attrib element)
       ∧ StronglySorted (λ i j, String.ltb i.1 j.1 = true) items
       ∧ _element_sort_key element = tag element +:+ join (items.*2))
  ∧ (∀ text' tail' children',
       _element_sort_key
         (Elem (tag element) (attrib element) text' tail' children')
       = _element_sort_key element).
Proof.
  destruct element as [t a x y cs]. simpl. repeat split.
  - apply sorted_perm.
  - eapply StronglySorted_impl;
      [|apply (sorted_StronglySorted String.ltb _element_sort_key
                 ltb_irrefl ltb_trans ltb_total)].
    intros c1 c2 Hle. unfold key_le in Hle.
    rewrite ltb_leb, negb_false_iff in Hle. by apply Is_true_true.
  - intros k. apply (sorted_stable String.ltb _element_sort_key ltb_irrefl).
  - exists (sorted_items a). split; [apply sorted_items_perm|].
    split; [apply sorted_items_ascending|].
    unfold _element_sort_key. simpl. apply fold_left_key.
Qed.

(** ** Exclusion *)

Lemma list_remove_fresh x (l1 l2 : list Element) :
  x ∉ l1 → list_remove x (l1 ++ x :: l2) = Some (l1 ++ l2).
Proof.
  induction l1 as [|y l1 IH]; intros Hx; simpl.
  - by rewrite decide_True.
  - rewrite not_elem_of_cons in Hx. destruct Hx as [Hne Hx].
    rewrite decide_False by done. by rewrite IH.
Qed.

Lemma exclude_fold t tg a x y (l1 l2 : list Element) :
  Forall (λ c, tag c ≠ t) l1 →
  foldl (λ r el, root ← r; ET.remove root el)
        (Ok (Elem tg a x y (l1 ++ l2))) (filter (λ c, tag c = t) l2)
  = Ok (Elem tg a x y (l1 ++ filter (λ c, tag c ≠ t) l2)).
Proof.
  revert l1. induction l2 as [|c l2 IH]; intros l1 Hl1; [done|].
  rewrite !filter_cons. destruct (decide (tag c = t)) as [Hc|Hc].
  - rewrite decide_False by (by intros []). simpl.
    unfold ET.remove at 2. simpl. rewrite list_remove_fresh.
    + unfold set_children. simpl. by apply IH.
    + intros Hin. rewrite Forall_forall in Hl1. by apply (Hl1 c).
  - rewrite decide_True by done.
    rewrite (cons_middle c l1 l2), (cons_middle c l1 (filter _ l2)), !app_assoc.
    apply IH. apply Forall_app. split; [done|]. by constructor.
Qed.

Lemma exclude_tag_filter select root t :
  checkpath t = false →
  _exclude_tag select root t
  = Ok (set_children root (filter (λ c, tag c ≠ t) (children root))).
Proof.
  intros Ht. destruct root as [tg a x y cs]. unfold _exclude_tag, findall.
  rewrite Ht. cbn [mbind result_bind Py.bind children].
  apply (exclude_fold t tg a x y [] cs). constructor.
Qed.

(** With an exclude tag that is not a path, the constructor never raises
    after the parse, and leaves the normalized tree, pruned of the
    matching children of the root. *)
Lemma of_root_pruned select D exclude_tag :
  plain_tag exclude_tag →
  of_root select D exclude_tag
  = Ok (Make (pruned exclude_tag (_set_sorted_rec D))).
Proof.
  intros Hplain. unfold of_root, pruned.
  destruct (truthy exclude_tag); [|done].
  by rewrite exclude_tag_filter.
Qed.

Lemma set_children_id e : set_children e (children e) = e.
Proof. by destruct e. Qed.

Lemma elem_of_concat {A} (x : A) (ls : list (list A)) :
  x ∈ concat ls ↔ ∃ l, x ∈ l ∧ l ∈ ls.
Proof.
  rewrite list_elem_of_In, in_concat. split.
  - intros (l & ? & ?). exists l. by rewrite !list_elem_of_In.
  - intros (l & ? & ?). exists l. by rewrite <-!list_elem_of_In.
Qed.

Lemma filter_Forall {A} (P : A → Prop) `{∀ x, Decision (P x)} (l : list A) :
  Forall P l → filter P l = l.
Proof.
  induction 1 as [|x l Hx Hl IH]; [done|].
  by rewrite filter_cons_True, IH.
Qed.

Lemma iter_self e : e ∈ iter e.
Proof. destruct e. left. Qed.

Lemma children_iter c e : c ∈ children e → c ∈ iter e.
Proof.
  destruct e as [t a x y cs]. simpl. intros Hc. right.
  apply elem_of_concat. exists (iter c). split; [apply iter_self|].
  by apply (list_elem_of_fmap_2 iter).
Qed.

(** C2, as the code has it: with a non-empty tag name [t] that is not a
    path, the constructor removes the children of the root that are
    tagged [t], and nothing else.  What is left is the normalized tree
    with the other children of the root in their sorted order; no child
    of the new root is tagged [t]. *)
Theorem exclude_tag_direct_children
    (select : Element → string → result (list Element))
    (D : Element) (t : string) :
  t ≠ "" →
  checkpath t = false →
  of_root select D (Some t)
  = Ok (Make (set_children (_set_sorted_rec D)
                (filter (λ c, tag c ≠ t) (children (_set_sorted_rec D)))))
  ∧ ∀ self, of_root select D (Some t) = Ok self →
      Forall (λ c, tag c ≠ t) (children (root self)).
Proof.
  intros Ht Hplain. rewrite of_root_pruned by done. unfold pruned.
  destruct t as [|c t]; [done|]. simpl. split; [done|].
  intros self [= <-]. simpl. apply Forall_forall.
  intros e He. by apply list_elem_of_filter in He as [? _].
Qed.

Lemma exclude_tag_direct_children_witness :
  "t" ≠ ""
  ∧ checkpath "t" = false
  ∧ ∀ select,
      of_root select flagged_doc (Some "t") = Ok (Make nested_doc)
      ∧ ∀ self, of_root select flagged_doc (Some "t") = Ok self →
          Forall (λ c, tag c ≠ "t") (children (root self)).
Proof.
  split; [done|]. split; [done|]. intros select.
  exact (exclude_tag_direct_children select flagged_doc "t"
           ltac:(done) eq_refl).
Defined.

(** C2 as stated fails: in [<r><b><t/></b></r>] the element tagged [t] is
    not a child of the root; the constructor called with [t] leaves the
    document as it is, with the element in it. *)
Lemma exclude_tag_misses_nested :
  checkpath "t" = false
  ∧ (∀ select, of_root select nested_doc (Some "t") = Ok (Make nested_doc))
  ∧ leaf "t" None ∈ iter nested_doc.
Proof.
  split; [done|]. split.
  - intros select. by rewrite of_root_pruned.
  - simpl. do 2 right. left.
Qed.

(** ** [tostring] *)

(** [re.sub] refuses the [bytes] object that [ET.tostring] returns. *)
Lemma tostring_not_ok (ET_tostring : Element → result string) self s :
  ComparableXml.tostring ET_tostring self ≠ Ok s.
Proof.
  unfold ComparableXml.tostring. by destruct (ET_tostring (root self)).
Qed.

(** C4, as the code has it: [tostring()] never returns.  When the
    serializer returns its [bytes] object, the substitution with a [str]
    pattern raises [TypeError]; so [_parse], through which every test
    obtains the strings it compares, never returns either. *)
Theorem tostring_type_error (ET_tostring : Element → result string)
    (self : t) :
  (∀ s, ComparableXml.tostring ET_tostring self ≠ Ok s)
  ∧ (∀ xml, ET_tostring (root self) = Ok xml →
       ComparableXml.tostring ET_tostring self
       = Raise (TypeError
                  "cannot use a string pattern on a bytes-like object"))
  ∧ ∀ select resource s, _parse select ET_tostring resource ≠ Ok s.
Proof.
  split; [intros s; apply tostring_not_ok|]. split.
  - intros xml Hxml. unfold ComparableXml.tostring. by rewrite Hxml.
  - intros select resource s. unfold _parse, canonical.
    destruct (of_root select resource (Some "qc-flag")) as [self'|e];
      [apply tostring_not_ok|done].
Qed.

(** C5, as the code has it: when no element of the document carries the
    tag [t], which is not a path, the constructor called with
    [exclude_tag=t] succeeds and builds the same object as without
    exclusion, the normalized tree.  No canonical form comes out of it:
    [tostring()] does not return. *)
Theorem exclude_absent_tag
    (select : Element → string → result (list Element))
    (ET_tostring : Element → result string) (D : Element) (t : string) :
  checkpath t = false →
  (∀ e, e ∈ iter D → tag e ≠ t) →
  of_root select D (Some t) = of_root select D None
  ∧ of_root select D (Some t) = Ok (Make (_set_sorted_rec D))
  ∧ ∀ s, canonical select ET_tostring D (Some t) ≠ Ok s.
Proof.
  intros Hplain Hno.
  assert (of_root select D (Some t) = Ok (Make (_set_sorted_rec D))) as Heq.
  { rewrite of_root_pruned by done. unfold pruned.
    destruct (truthy (Some t)); [|done]. simpl. do 2 f_equal.
    rewrite <-(set_children_id (_set_sorted_rec D)) at 3. f_equal.
    apply filter_Forall, Forall_forall. intros c Hc.
    destruct D as [tg a x y cs]. simpl in Hc.
    rewrite (sorted_perm String.ltb _element_sort_key) in Hc.
    apply list_elem_of_fmap in Hc as (c0 & -> & Hc0).
    rewrite set_sorted_rec_tag. apply Hno, children_iter. by simpl. }
  split; [by rewrite Heq|]. split; [done|].
  intros s. unfold canonical. rewrite Heq. apply tostring_not_ok.
Qed.

Lemma exclude_absent_tag_witness :
  checkpath "qc-flag" = false
  ∧ (∀ e, e ∈ iter nested_doc → tag e ≠ "qc-flag")
  ∧ ∀ select ET_tostring,
      of_root select nested_doc (Some "qc-flag") = of_root select nested_doc None
      ∧ of_root select nested_doc (Some "qc-flag")
        = Ok (Make (_set_sorted_rec nested_doc))
      ∧ ∀ s, canonical select ET_tostring nested_doc (Some "qc-flag") ≠ Ok s.
Proof.
  assert (∀ e, e ∈ iter nested_doc → tag e ≠ "qc-flag") as Hno.
  { apply Forall_forall. by repeat constructor. }
  split; [done|]. split; [exact Hno|]. intros select ET_tostring.
  exact (exclude_absent_tag select ET_tostring nested_doc "qc-flag"
           eq_refl Hno).
Defined.

(** ** The constructor and the parser *)




(** ** Order of siblings *)

Lemma filter_key_normalized k (cs : list Element) :
  filter (has_sort_key k) (map _set_sorted_rec cs)
  = map _set_sorted_rec (filter (has_sort_key k) cs).
Proof.
  induction cs as [|c cs IH]; [done|]. simpl.
  rewrite !filter_cons, set_sorted_rec_key, IH.
  by destruct (decide (_element_sort_key c = k)).
Qed.

Section SortedMap.

Context {A K : Type} (lt : K → K → bool) (key : A → K) (f : A → A).
Hypothesis key_f : ∀ x, key (f x) = key x.

(** The stable sort commutes with a map that keeps the keys. *)
Lemma insert_sorted_fmap x l :
  map f (insert_sorted lt key x l) = insert_sorted lt key (f x) (map f l).
Proof.
  induction l as [|y l IH]; [done|]. simpl. rewrite !key_f.
  destruct (lt (key y) (key x)); simpl; [by rewrite IH|done].
Qed.

Lemma sorted_fmap l : map f (sorted lt key l) = sorted lt key (map f l).
Proof.
  induction l as [|x l IH]; [done|]. simpl.
  by rewrite insert_sorted_fmap, IH.
Qed.

Lemma filter_key_fmap `{EqDecision K} k l :
  filter (λ x, key x = k) (map f l) = map f (filter (λ x, key x = k) l).
Proof.
  induction l as [|x l IH]; [done|]. simpl.
  rewrite !filter_cons, key_f, IH. by destruct (decide (key x = k)).
Qed.

End SortedMap.

Lemma strip_tails_key e : _element_sort_key (strip_tails e) = _element_sort_key e.
Proof. by destruct e. Qed.

Lemma untailed_key e : _element_sort_key (untailed e) = _element_sort_key e.
Proof. by destruct e. Qed.

Lemma strip_tails_untailed e : strip_tails (untailed e) = strip_tails e.
Proof. by destruct e. Qed.

Lemma strip_tails_normalized e :
  strip_tails (_set_sorted_rec e) = _set_sorted_rec (strip_tails e).
Proof.
  induction e as [t a x y cs IH] using Element_ind'.
  cbn [_set_sorted_rec strip_tails]. f_equal.
  rewrite (sorted_fmap String.ltb _element_sort_key strip_tails strip_tails_key).
  f_equal. rewrite !map_map.
  induction IH as [|c cs Hc _ IHcs]; [done|]. simpl. by rewrite Hc, IHcs.
Qed.

Lemma strip_tails_pruned exclude_tag e :
  strip_tails (pruned exclude_tag e) = pruned exclude_tag (strip_tails e).
Proof.
  unfold pruned. destruct (truthy exclude_tag); [|done].
  destruct e as [t a x y cs]. unfold set_children. simpl. f_equal.
  induction cs as [|c cs IH]; [done|]. simpl. rewrite !filter_cons.
  replace (tag (strip_tails c)) with (tag c) by (by destruct c).
  destruct (decide (tag c ≠ default "" exclude_tag)); simpl; by rewrite IH.
Qed.

(** Documents that differ in the order of siblings only, with ties kept,
    have the same normalized tree, tails apart. *)
Lemma reordered_normalized :
  ∀ D1 D2, reordered ties_kept D1 D2 →
    _set_sorted_rec (strip_tails D1) = _set_sorted_rec (strip_tails D2).
Proof.
  fix IH 3. intros D1 D2 [t a x y cs1 cs' cs2 Hcs _ _ Hties].
  simpl. f_equal.
  assert (map _set_sorted_rec (map strip_tails cs1)
          = map _set_sorted_rec (map strip_tails cs')) as ->.
  { clear Hties. induction Hcs as [|c1 c' l1 l' Hc Hl IHl]; [done|].
    simpl. f_equal; [by apply IH|done]. }
  apply (sorted_ext String.ltb _element_sort_key
           ltb_irrefl ltb_trans ltb_total).
  intros k. rewrite !map_map.
  set (g := λ c, _set_sorted_rec (strip_tails c)).
  assert (∀ c, _element_sort_key (g c) = _element_sort_key c) as Hg.
  { intros c. unfold g. by rewrite set_sorted_rec_key, strip_tails_key. }
  assert (∀ l, filter (has_sort_key k) (map g l)
               = map g (filter (has_sort_key k) (untailed <$> l))) as Hfilter.
  { intros l. rewrite (filter_key_fmap _element_sort_key g Hg).
    rewrite (filter_key_fmap _element_sort_key untailed untailed_key).
    rewrite map_map. apply map_ext. intros c. unfold g.
    by rewrite strip_tails_untailed. }
  by rewrite !Hfilter, (Hties k).
Qed.

(** C1, as the code has it: for two documents that differ only in the
    order of sibling elements, at any depth, the constructor called with
    the same exclude tag (not a path) builds trees that are equal, tails
    apart, provided that siblings with the same sort key (same tag and
    same attribute values in name order) appear in the same relative
    order in both.  The tails, the text that follows an element, move
    with the elements; in documents without any, the two objects are
    equal. *)
Theorem normalized_order_insensitive
    (select : Element → string → result (list Element))
    (D1 D2 : Element) (exclude_tag : option string) :
  reordered ties_kept D1 D2 →
  plain_tag exclude_tag →
  ∃ self1 self2,
    of_root select D1 exclude_tag = Ok self1
    ∧ of_root select D2 exclude_tag = Ok self2
    ∧ strip_tails (root self1) = strip_tails (root self2)
    ∧ (strip_tails D1 = D1 → strip_tails D2 = D2 → self1 = self2).
Proof.
  intros Hre Hplain. eexists _, _.
  split; [by apply of_root_pruned|]. split; [by apply of_root_pruned|].
  assert (strip_tails (pruned exclude_tag (_set_sorted_rec D1))
          = strip_tails (pruned exclude_tag (_set_sorted_rec D2))) as Heq.
  { by rewrite !strip_tails_pruned, !strip_tails_normalized,
      (reordered_normalized D1 D2 Hre). }
  split; [exact Heq|]. intros H1 H2. f_equal.
  rewrite !strip_tails_pruned, !strip_tails_normalized, H1, H2 in Heq.
  exact Heq.
Qed.

Lemma ties_kept_distinct (c1 c2 : Element) :
  _element_sort_key c1 ≠ _element_sort_key c2 →
  ties_kept [c1; c2] [c2; c1].
Proof.
  intros Hne k. rewrite !filter_cons, !filter_nil.
  destruct (decide (_element_sort_key c1 = k)),
    (decide (_element_sort_key c2 = k)); congruence.
Qed.

Lemma normalized_order_insensitive_witness :
  reordered ties_kept order_doc1 order_doc2
  ∧ plain_tag (Some "qc-flag")
  ∧ ∀ select, ∃ self1 self2,
      of_root select order_doc1 (Some "qc-flag") = Ok self1
      ∧ of_root select order_doc2 (Some "qc-flag") = Ok self2
      ∧ strip_tails (root self1) = strip_tails (root self2)
      ∧ (strip_tails order_doc1 = order_doc1 →
         strip_tails order_doc2 = order_doc2 → self1 = self2).
Proof.
  assert (reordered ties_kept order_doc1 order_doc2) as Hre.
  { apply reordered_elem with
      (cs' := [Elem "b" ∅ None (Some line_indent)
                 [leaf "x" None; leaf "y" None];
               Elem "a" ∅ None (Some line_end) []]).
    - constructor; [|constructor; [|constructor]].
      + apply reordered_elem with (cs' := [leaf "y" None; leaf "x" None]).
        * repeat constructor; apply reordered_elem with (cs' := []);
            by constructor.
        * apply Permutation_swap.
        * done.
        * by apply ties_kept_distinct.
      + apply reordered_elem with (cs' := []); by constructor.
    - apply Permutation_swap.
    - done.
    - by apply ties_kept_distinct. }
  assert (plain_tag (Some "qc-flag")) as Hplain by reflexivity.
  split; [exact Hre|]. split; [exact Hplain|]. intros select.
  exact (normalized_order_insensitive select order_doc1 order_doc2
           (Some "qc-flag") Hre Hplain).
Defined.

(** C1 as stated fails: [<r><a>1</a><a>2</a></r>] and
    [<r><a>2</a><a>1</a></r>] differ only in the order of two siblings
    that have the same tag and the same (empty) attributes; the sort
    leaves such siblings in document order, and the two objects hold
    different trees. *)
Lemma ties_keep_document_order :
  reordered any_order ties_doc1 ties_doc2
  ∧ tag (leaf "a" (Some "1")) = tag (leaf "a" (Some "2"))
  ∧ attrib (leaf "a" (Some "1")) = attrib (leaf "a" (Some "2"))
  ∧ (∀ select, of_root select ties_doc1 None = Ok (Make ties_doc1))
  ∧ (∀ select, of_root select ties_doc2 None = Ok (Make ties_doc2))
  ∧ ties_doc1 ≠ ties_doc2
  ∧ strip_tails ties_doc1 ≠ strip_tails ties_doc2.
Proof.
  split.
  { apply reordered_elem with
      (cs' := [leaf "a" (Some "1"); leaf "a" (Some "2")]).
    - repeat constructor; apply reordered_elem with (cs' := []);
        by constructor.
    - apply Permutation_swap.
    - done.
    - done. }
  repeat split; try done; intros select; by vm_compute.
Qed.

(** In a document with text between the elements, the text that
    follows an element moves with it: [<r>hello<a/>world<b/></r>] is
    already sorted, and [<r>hello<b/>world<a/></r>] becomes
    [<r>hello<a/><b/>world</r>].  The two trees are equal, tails apart,
    and differ in their tails. *)
Lemma mixed_content_moves_text :
  reordered ties_kept mixed_doc1 mixed_doc2
  ∧ _set_sorted_rec mixed_doc1 = mixed_doc1
  ∧ _set_sorted_rec mixed_doc2
    = Elem "r" ∅ (Some "hello") None
        [Elem "a" ∅ None None []; Elem "b" ∅ None (Some "world") []]
  ∧ _set_sorted_rec mixed_doc1 ≠ _set_sorted_rec mixed_doc2.
Proof.
  split.
  { apply reordered_elem with
      (cs' := [Elem "a" ∅ None (Some "world") []; Elem "b" ∅ None None []]).
    - repeat constructor; apply reordered_elem with (cs' := []);
        by constructor.
    - apply Permutation_swap.
    - done.
    - by apply ties_kept_distinct. }
  repeat split; by vm_compute.
Qed.

(** ** Strings *)

Abbreviation free c s :=
  (string_forall (λ a, negb (bool_decide (a = c%char))) s = true).

Lemma string_forall_app p s t :
  string_forall p (s +:+ t) = string_forall p s && string_forall p t.
Proof.
  induction s as [|a s IH]; [done|]. rewrite app_String. simpl.
  by rewrite IH, andb_assoc.
Qed.

Ltac norm_app :=
  repeat first [rewrite app_assoc_s | rewrite app_String | rewrite app_empty_l
               | rewrite app_empty_r].

(** ** Permutations *)

Lemma concat_perm {A} (l l' : list (list A)) : l ≡ₚ l' → concat l ≡ₚ concat l'.
Proof.
  induction 1 as [|x l l' _ IH|x y l|l l' l'' _ IH1 _ IH2]; simpl.
  - done.
  - by rewrite IH.
  - by rewrite !app_assoc, (Permutation_app_comm x y).
  - by etrans.
Qed.

Lemma concat_map_perm {A B} (f g : A → list B) (l : list A) :
  Forall (λ x, f x ≡ₚ g x) l → concat (map f l) ≡ₚ concat (map g l).
Proof.
  induction 1 as [|x l Hx _ IH]; [done|]. simpl. by rewrite Hx, IH.
Qed.

(** ** Sorting and filtering *)

Lemma filter_comm {A} (P Q : A → Prop)
    `{∀ x, Decision (P x)} `{∀ x, Decision (Q x)} (l : list A) :
  filter P (filter Q l) = filter Q (filter P l).
Proof.
  induction l as [|x l IH]; [done|]. rewrite !filter_cons.
  destruct (decide (P x)), (decide (Q x));
    rewrite ?filter_cons, ?decide_True, ?decide_False by done; congruence.
Qed.

Lemma StronglySorted_filter {A} (R : A → A → Prop) (P : A → Prop)
    `{∀ x, Decision (P x)} (l : list A) :
  StronglySorted R l → StronglySorted R (filter P l).
Proof.
  induction 1 as [|x l Hl IH Hx]; [constructor|]. rewrite filter_cons.
  destruct (decide (P x)); [|done]. constructor; [done|].
  rewrite Forall_forall in Hx. apply Forall_forall. intros y Hy.
  apply list_elem_of_filter in Hy as [_ Hy]. by apply Hx.
Qed.


Section SortedMore.

Context {A K : Type} `{EqDecision K} (lt : K → K → bool) (key : A → K).
Hypothesis lt_irrefl : ∀ a, lt a a = false.
Hypothesis lt_trans : ∀ a b c, lt a b = true → lt b c = true → lt a c = true.
Hypothesis lt_total : ∀ a b, lt a b = false → lt b a = false → a = b.

(** Filtering commutes with the stable sort. *)
Lemma sorted_filter (P : A → Prop) `{∀ x, Decision (P x)} (l : list A) :
  filter P (sorted lt key l) = sorted lt key (filter P l).
Proof.
  apply (StronglySorted_ties_unique lt key lt_irrefl lt_total).
  - apply StronglySorted_filter. by apply sorted_StronglySorted.
  - by apply sorted_StronglySorted.
  - intros k. rewrite (filter_comm (λ x, key x = k) P).
    rewrite !(sorted_stable lt key lt_irrefl).
    apply filter_comm.
Qed.

End SortedMore.

(** ** A changed attribute value *)



Lemma start_tag_normalized e : start_tag (_set_sorted_rec e) = start_tag e.
Proof. by destruct e. Qed.






(** * Further properties *)

(** ** Normalization, once more *)

Lemma sorted_sorted (l : list Element) :
  sorted String.ltb _element_sort_key (sorted String.ltb _element_sort_key l)
  = sorted String.ltb _element_sort_key l.
Proof.
  apply (sorted_ext String.ltb _element_sort_key
           ltb_irrefl ltb_trans ltb_total).
  intros k. apply (sorted_stable String.ltb _element_sort_key ltb_irrefl).
Qed.

Lemma map_fixed {A} (f : A → A) (l : list A) :
  Forall (λ x, f x = x) l → map f l = l.
Proof. induction 1 as [|x l Hx _ IH]; [done|]. simpl. by rewrite Hx, IH. Qed.

(** X1: normalization is idempotent: a normalized tree is left as it is
    by a second normalization. *)
Theorem set_sorted_rec_idempotent (element : Element) :
  _set_sorted_rec (_set_sorted_rec element) = _set_sorted_rec element.
Proof.
  induction element as [t a x y cs IH] using Element_ind'.
  cbn [_set_sorted_rec]. f_equal.
  rewrite (map_fixed _set_sorted_rec); [apply sorted_sorted|].
  rewrite (sorted_perm String.ltb _element_sort_key). by apply Forall_fmap.
Qed.

(** X2: no element is lost or duplicated by normalization: the elements
    of the normalized tree are the normalized elements of the tree, in
    another order. *)
Theorem set_sorted_rec_elements (element : Element) :
  iter (_set_sorted_rec element) ≡ₚ map _set_sorted_rec (iter element).
Proof.
  induction element as [t a x y cs IH] using Element_ind'.
  cbn [_set_sorted_rec iter map]. f_equiv.
  rewrite (concat_perm _ _
             (Permutation_map iter
                (sorted_perm String.ltb _element_sort_key
                   (map _set_sorted_rec cs)))).
  rewrite map_map, concat_map, map_map. by apply concat_map_perm.
Qed.

(** X3: with a tag name that is not a path, [_exclude_tag] never
    raises: each match is still a child of the root when it is removed.
    It keeps the other children in their order, and applied again with
    the same tag it changes nothing. *)
Theorem exclude_tag_total
    (select : Element → string → result (list Element))
    (root : Element) (exclude : string) :
  checkpath exclude = false →
  ∃ root',
    _exclude_tag select root exclude = Ok root'
    ∧ children root' = filter (λ c, tag c ≠ exclude) (children root)
    ∧ (tag root' = tag root ∧ attrib root' = attrib root
       ∧ text root' = text root ∧ tail root' = tail root)
    ∧ _exclude_tag select root' exclude = Ok root'.
Proof.
  intros Hplain. eexists. split; [by apply exclude_tag_filter|].
  destruct root as [t a x y cs]. simpl. repeat split.
  rewrite exclude_tag_filter by done. unfold set_children.
  simpl. do 2 f_equal. apply filter_Forall, Forall_forall.
  intros c Hc. by apply list_elem_of_filter in Hc as [? _].
Qed.

Lemma exclude_tag_total_witness :
  checkpath "t" = false
  ∧ ∀ select, ∃ root',
      _exclude_tag select flagged_doc "t" = Ok root'
      ∧ children root'
        = filter (λ c, tag c ≠ "t") (children flagged_doc)
      ∧ (tag root' = tag flagged_doc ∧ attrib root' = attrib flagged_doc
         ∧ text root' = text flagged_doc ∧ tail root' = tail flagged_doc)
      ∧ _exclude_tag select root' "t" = Ok root'.
Proof.
  split; [reflexivity|]. intros select.
  exact (exclude_tag_total select flagged_doc "t" eq_refl).
Defined.

(** X4: with a tag name that is not a path, exclusion and normalization
    commute: removing the tagged children and then normalizing gives the
    tree that the constructor builds by normalizing first. *)
Theorem exclude_tag_normalized
    (select : Element → string → result (list Element))
    (root : Element) (exclude : string) :
  checkpath exclude = false →
  _set_sorted_rec <$> _exclude_tag select root exclude
  = _exclude_tag select (_set_sorted_rec root) exclude.
Proof.
  intros Hplain.
  rewrite !exclude_tag_filter by done. destruct root as [t a x y cs].
  unfold set_children. simpl. do 2 f_equal.
  rewrite (sorted_filter String.ltb _element_sort_key
             ltb_irrefl ltb_trans ltb_total).
  f_equal. induction cs as [|c cs IH]; [done|].
  cbn [map]. rewrite !filter_cons, set_sorted_rec_tag.
  destruct (decide (tag c ≠ exclude)); cbn [map]; by rewrite IH.
Qed.

Lemma exclude_tag_normalized_witness :
  checkpath "a" = false
  ∧ ∀ select,
      _set_sorted_rec <$> _exclude_tag select order_doc1 "a"
      = _exclude_tag select (_set_sorted_rec order_doc1) "a".
Proof.
  split; [reflexivity|]. intros select.
  exact (exclude_tag_normalized select order_doc1 "a" eq_refl).
Defined.

(** X5: the sort key does not separate the tag from the attribute
    values and ignores attribute names: an element with tag [t] and a
    single attribute of value [v] has the key [t + v] whatever the
    attribute is called, which is also the key of an element without
    attributes whose tag is [t + v]. *)
Theorem element_sort_key_collisions (t k v : string) x y cs x' y' cs' :
  _element_sort_key (Elem t {[k := v]} x y cs) = t +:+ v
  ∧ _element_sort_key (Elem (t +:+ v) ∅ x' y' cs') = t +:+ v.
Proof.
  unfold _element_sort_key. simpl.
  rewrite map_to_list_singleton, map_to_list_empty. done.
Qed.

(** ** [attach_file] *)

Import PyStr EppFiles.

Lemma basename_no_slash p : no_slash p = true → basename p = p.
Proof.
  destruct p as [|c p]; [done|]. simpl.
  intros [Hc Hp]%andb_true_iff. apply negb_true_iff in Hc.
  by rewrite Hc, Hp.
Qed.

Lemma no_slash_basename p : no_slash (basename p) = true.
Proof.
  induction p as [|c p IH]; [done|]. simpl.
  case_bool_decide as Hc; [done|].
  destruct (no_slash p) eqn:Hp; [|done]. simpl.
  by rewrite bool_decide_false, Hp.
Qed.

Lemma no_slash_app a b : no_slash (a +:+ b) = no_slash a && no_slash b.
Proof.
  induction a as [|c a IH]; [done|]. rewrite app_String. simpl.
  by rewrite IH, andb_assoc.
Qed.

Lemma basename_app_slash a b :
  no_slash b = true → basename (a +:+ String "/" b) = b.
Proof.
  intros Hb. induction a as [|c a IH].
  - rewrite app_empty_l. simpl. by apply basename_no_slash.
  - rewrite app_String. simpl. case_bool_decide; [done|].
    by rewrite no_slash_app, andb_false_r.
Qed.

Lemma endswith_slash_inv a :
  endswith_slash a = true → ∃ a', a = a' +:+ String "/" "".
Proof.
  induction a as [|c a IH]; [done|]. simpl. destruct a as [|d a].
  - intros ->%bool_decide_eq_true. by exists "".
  - intros [a' Ha']%IH. exists (String c a'). by rewrite app_String, <-Ha'.
Qed.

Lemma basename_path_join a b :
  no_slash b = true → basename (path_join a b) = b.
Proof.
  intros Hb. unfold path_join.
  destruct (startswith "/" b) eqn:Hstart.
  { destruct b as [|c b]; [done|]. simpl in *.
    rewrite andb_true_r in Hstart. apply bool_decide_eq_true in Hstart.
    subst c. done. }
  destruct (bool_decide (a = "") || endswith_slash a) eqn:Ha.
  - apply orb_true_iff in Ha as [->%bool_decide_eq_true|Ha].
    + by apply basename_no_slash.
    + apply endswith_slash_inv in Ha as [a' ->].
      rewrite app_assoc_s. by apply basename_app_slash.
  - by apply basename_app_slash.
Qed.

(** X7: for an element id without [/], [attach_file] copies the file to
    a location directly inside the current directory, whose last
    component is the id, an underscore and the last component of [src];
    it returns that location when the copy succeeds and lets the error
    of the copy through when it fails. *)
Theorem attach_file_location {FS : Type}
    (copy : string → string → FS → result unit * FS)
    (getcwd src resource_id : string) (fs : FS) :
  no_slash resource_id = true →
  let new_name := resource_id +:+ "_" +:+ basename src in
  ∃ location,
    basename location = new_name
    ∧ (location = getcwd +:+ new_name ∨ location = getcwd +:+ "/" +:+ new_name)
    ∧ attach_file copy getcwd src resource_id fs
      = match copy src location fs with
        | (Ok _, fs') => (Ok location, fs')
        | (Raise e, fs') => (Raise e, fs')
        end.
Proof.
  intros Hid new_name. exists (path_join getcwd new_name).
  split; [|split; [|done]].
  - apply basename_path_join. unfold new_name.
    by rewrite !no_slash_app, Hid, no_slash_basename.
  - unfold path_join. destruct (startswith "/" new_name) eqn:Hstart.
    + exfalso. unfold new_name in Hstart.
      destruct resource_id as [|c r]; [done|]. rewrite app_String in Hstart.
      simpl in *. rewrite andb_true_r in Hstart.
      apply bool_decide_eq_true in Hstart. subst c. done.
    + destruct (_ || _); auto.
Qed.

Lemma attach_file_location_witness :
  no_slash "2-1234" = true
  ∧ ∃ location,
      basename location = "2-1234_result.csv"
      ∧ (location = "/opt/run" +:+ "2-1234_result.csv"
         ∨ location = "/opt/run" +:+ "/" +:+ "2-1234_result.csv")
      ∧ attach_file (λ _ dst (fs : list string), (Ok tt, dst :: fs))
          "/opt/run" "/tmp/out/result.csv" "2-1234" []
        = (Ok location, [location]).
Proof.
  split; [reflexivity|].
  exact (attach_file_location (λ _ dst (fs : list string), (Ok tt, dst :: fs))
           "/opt/run" "/tmp/out/result.csv" "2-1234" [] eq_refl).
Defined.

(** ** [StreamToLogger.write] *)

Abbreviation no_linebreak s :=
  (string_forall (λ c, negb (islinebreak c)) s = true).

Lemma rstrip_String c s :
  rstrip (String c s)
  = match rstrip s with
    | "" => if isspace c then "" else String c ""
    | r => String c r
    end.
Proof. done. Qed.

Lemma rstrip_spaces s : string_forall isspace s = true → rstrip s = "".
Proof.
  induction s as [|c s IH]; [done|]. simpl.
  intros [Hc Hs]%andb_true_iff. by rewrite IH, Hc.
Qed.

Lemma rstrip_empty_inv s : rstrip s = "" → string_forall isspace s = true.
Proof.
  induction s as [|c s IH]; [done|]. rewrite rstrip_String. simpl.
  destruct (rstrip s) eqn:Hr; [|done].
  destruct (isspace c); [|done]. intros _. by apply IH.
Qed.

Lemma rstrip_idempotent s : rstrip (rstrip s) = rstrip s.
Proof.
  induction s as [|c s IH]; [done|]. rewrite rstrip_String.
  destruct (rstrip s) as [|d r] eqn:Hr.
  - destruct (isspace c) eqn:Hc; [done|]. simpl. by rewrite Hc.
  - rewrite rstrip_String, IH. done.
Qed.

Lemma rstrip_forall p s :
  string_forall p s = true → string_forall p (rstrip s) = true.
Proof.
  induction s as [|c s IH]; [done|]. rewrite rstrip_String. simpl.
  intros [Hc Hs]%andb_true_iff. specialize (IH Hs).
  destruct (rstrip s) as [|d r].
  - destruct (isspace c); [done|]. simpl. by rewrite Hc.
  - change (p c && string_forall p (String d r) = true). by rewrite Hc, IH.
Qed.

Lemma splitlines_go_no_linebreak_len n :
  ∀ cur s, String.length s ≤ n →
    no_linebreak (default "" cur) →
    Forall (λ line, no_linebreak line) (splitlines_go cur s).
Proof.
  induction n as [|n IH]; intros cur [|c s] Hlen Hcur; simpl in Hlen;
    try lia; try (simpl; destruct cur; by repeat constructor).
  cbn [splitlines_go]. destruct (islinebreak c) eqn:Hc.
  - constructor; [done|].
    assert (∀ s', String.length s' ≤ n →
              Forall (λ line, no_linebreak line) (splitlines_go None s'))
      as Hnext by (intros; by apply IH).
    destruct (decide (c = "013"%char)) as [->|Hcr].
    + destruct s as [|d s]; [simpl; constructor|].
      destruct (decide (d = "010"%char)) as [->|Hd].
      * simpl. apply Hnext. simpl in *. lia.
      * specialize (Hnext (String d s) ltac:(lia)).
        destruct d as [[] [] [] [] [] [] [] []]; done.
    + specialize (Hnext s ltac:(lia)).
      destruct c as [[] [] [] [] [] [] [] []]; try done.
  - apply IH; [lia|]. simpl.
    rewrite string_forall_app, Hcur. simpl. by rewrite Hc.
Qed.

Lemma splitlines_no_linebreak s :
  Forall (λ line, no_linebreak line) (splitlines s).
Proof. by apply (splitlines_go_no_linebreak_len (String.length s)). Qed.

Lemma splitlines_go_one_line s :
  ∀ cur, no_linebreak s → (is_Some cur ∨ s ≠ "") →
    splitlines_go cur s = [default "" cur +:+ s].
Proof.
  induction s as [|c s IH]; intros cur Hs Hne.
  - destruct Hne as [[l ->]|?]; [|done]. simpl. by rewrite app_empty_r.
  - simpl in Hs. apply andb_true_iff in Hs as [Hc Hs].
    apply negb_true_iff in Hc. cbn [splitlines_go]. rewrite Hc.
    rewrite IH by eauto. simpl. by rewrite app_assoc_s.
Qed.

(** X8: [write] passes the buffer unchanged to the duplicated stream
    when there is one, keeps the records already logged, and logs the
    new ones at the level of the object; no logged message contains a
    line break or ends in whitespace. *)
Theorem stream_write_records (self : StreamToLogger) (buf : string) :
  let self' := StreamToLogger_write self buf in
  log_level self' = log_level self
  ∧ stream self' = (λ written, written ++ [buf]) <$> stream self
  ∧ ∃ new,
      logged self' = logged self ++ new
      ∧ Forall (λ record : nat * string,
                  record.1 = log_level self
                  ∧ no_linebreak record.2
                  ∧ rstrip record.2 = record.2) new.
Proof.
  simpl. repeat split. eexists. split; [done|].
  apply Forall_fmap. eapply Forall_impl; [apply splitlines_no_linebreak|].
  intros line Hline. simpl. split; [done|]. split.
  - by apply rstrip_forall.
  - apply rstrip_idempotent.
Qed.

(** X9: a buffer of whitespace only, such as the newline that [print]
    writes on its own, logs nothing; a buffer that holds one line logs
    exactly one record, the line without its trailing whitespace. *)
Theorem stream_write_lines (self : StreamToLogger) (buf : string) :
  (string_forall isspace buf = true →
     logged (StreamToLogger_write self buf) = logged self)
  ∧ (no_linebreak buf → string_forall isspace buf = false →
     logged (StreamToLogger_write self buf)
     = logged self ++ [(log_level self, rstrip buf)]).
Proof.
  split.
  - intros Hspace. simpl. rewrite rstrip_spaces by done. simpl.
    by rewrite app_nil_r.
  - intros Hline Hspace. simpl. f_equal. unfold splitlines.
    rewrite splitlines_go_one_line.
    + cbn [default map]. by rewrite app_empty_l, rstrip_idempotent.
    + by apply rstrip_forall.
    + right. intros Hempty%rstrip_empty_inv. congruence.
Qed.

Lemma stream_write_lines_witness :
  logged (StreamToLogger_write
            {| log_level := 20; stream := Some []; logged := [] |}
            (String "010" "")) = []
  ∧ logged (StreamToLogger_write
              {| log_level := 20; stream := Some []; logged := [] |}
              "done  ") = [(20, "done")].
Proof.
  split.
  - apply (proj1 (stream_write_lines
                    {| log_level := 20; stream := Some []; logged := [] |}
                    (String "010" ""))). reflexivity.
  - apply (proj2 (stream_write_lines
                    {| log_level := 20; stream := Some []; logged := [] |}
                    "done  ")); reflexivity.
Defined.

(** ** [split] and [get_file_path] *)

Lemma startswith_inv p s : startswith p s = true → ∃ r, s = p +:+ r.
Proof.
  revert s. induction p as [|a p IH]; intros s; [by exists s|].
  destruct s as [|b s]; [done|]. simpl.
  intros [->%bool_decide_eq_true [r ->]%IH]%andb_true_iff. by exists r.
Qed.

Lemma startswith_app p r : startswith p (p +:+ r) = true.
Proof.
  induction p as [|a p IH]; [done|]. rewrite app_String. simpl.
  by rewrite bool_decide_true, IH.
Qed.

Lemma split_go_skip sep t cur s :
  split_go sep (String.length t) cur (t +:+ s)
  = match s with
    | "" => [cur]
    | _ => split_go sep 0 cur s
    end.
Proof.
  induction t as [|c t IH].
  - rewrite app_empty_l. by destruct s.
  - rewrite app_String. simpl. apply IH.
Qed.

Lemma split_go_nonempty sep skip cur s : split_go sep skip cur s ≠ [].
Proof.
  revert skip cur. induction s as [|c s IH]; intros skip cur; [done|].
  simpl. destruct skip; [|apply IH].
  destruct (startswith sep (String c s)); [done|apply IH].
Qed.

Lemma split_go_hit sep r cur :
  sep ≠ "" → r ≠ "" →
  split_go sep 0 cur (sep +:+ r) = cur :: split_go sep 0 "" r.
Proof.
  intros Hsep Hr. destruct sep as [|c sep]; [done|].
  rewrite app_String. cbn [split_go].
  rewrite <-app_String, startswith_app.
  f_equal. simpl. rewrite Nat.sub_0_r.
  rewrite (split_go_skip (String c sep) sep "" r).
  by destruct r.
Qed.

Lemma startswith_refl p : startswith p p = true.
Proof. induction p; [done|]. simpl. by rewrite bool_decide_true. Qed.

Lemma split_go_hit_end sep cur :
  sep ≠ "" → split_go sep 0 cur sep = [cur; ""].
Proof.
  intros Hsep. destruct sep as [|c sep]; [done|]. cbn [split_go].
  rewrite startswith_refl. f_equal. simpl. rewrite Nat.sub_0_r.
  pose proof (split_go_skip (String c sep) sep "" "") as Hskip.
  by rewrite app_empty_r in Hskip.
Qed.

Lemma join_sep_cons sep x l :
  l ≠ [] → join_sep sep (x :: l) = x +:+ sep +:+ join_sep sep l.
Proof. by destruct l. Qed.

(** [sep.join(s.split(sep))] is [s]. *)
Lemma join_split_go sep n :
  sep ≠ "" →
  ∀ s cur, String.length s ≤ n →
    join_sep sep (split_go sep 0 cur s) = cur +:+ s.
Proof.
  intros Hsep. induction n as [|n IH]; intros [|c s] cur Hlen;
    simpl in Hlen; try lia; try (simpl; by rewrite app_empty_r).
  destruct (startswith sep (String c s)) eqn:Hstart.
  - apply startswith_inv in Hstart as [r Hr]. rewrite Hr.
    assert (String.length r ≤ n) as Hlenr.
    { apply (f_equal String.length) in Hr. simpl in Hr.
      destruct sep as [|d sep]; [done|]. rewrite app_String in Hr.
      simpl in Hr.
      assert (∀ a b, String.length (a +:+ b)
                     = String.length a + String.length b) as Happ.
      { induction a as [|e a IHa]; intros b; [done|].
        rewrite app_String. simpl. by rewrite IHa. }
      rewrite Happ in Hr. lia. }
    destruct r as [|e r].
    + rewrite app_empty_r, split_go_hit_end by done. simpl.
      by rewrite app_empty_r.
    + rewrite split_go_hit by done.
      rewrite join_sep_cons by apply split_go_nonempty.
      by rewrite IH, app_empty_l.
  - cbn [split_go]. rewrite Hstart, IH by lia.
    by rewrite app_assoc_s.
Qed.

Lemma join_split sep s : sep ≠ "" → join_sep sep (split sep s) = s.
Proof.
  intros Hsep. unfold split.
  by rewrite (join_split_go sep (String.length s)).
Qed.

(** Without an occurrence of [sep], [split] returns the string alone. *)
Lemma split_go_absent sep s cur :
  (∀ a b, s ≠ a +:+ sep +:+ b) → split_go sep 0 cur s = [cur +:+ s].
Proof.
  revert cur. induction s as [|c s IH]; intros cur Habsent.
  - simpl. by rewrite app_empty_r.
  - cbn [split_go]. destruct (startswith sep (String c s)) eqn:Hstart.
    + apply startswith_inv in Hstart as [r Hr].
      by destruct (Habsent "" r).
    + rewrite IH; [by rewrite app_assoc_s|].
      intros a b ->. apply (Habsent (String c a) b). by rewrite app_String.
Qed.

(** With an occurrence of [sep], [split] returns at least two pieces. *)
Lemma split_go_present sep a b cur :
  sep ≠ "" → 2 ≤ length (split_go sep 0 cur (a +:+ sep +:+ b)).
Proof.
  intros Hsep. revert cur. induction a as [|c a IH]; intros cur.
  - rewrite app_empty_l. destruct b as [|d b].
    + rewrite app_empty_r, split_go_hit_end by done. simpl. lia.
    + rewrite split_go_hit by done.
      pose proof (split_go_nonempty sep 0 "" (String d b)).
      destruct (split_go sep 0 "" (String d b)); [done|]. cbn [length]. lia.
  - rewrite app_String. cbn [split_go].
    destruct (startswith sep (String c (a +:+ sep +:+ b))) eqn:Hstart.
    + pose proof (split_go_nonempty sep (String.length sep - 1) ""
                    (a +:+ sep +:+ b)).
      destruct (split_go sep _ "" (a +:+ sep +:+ b)); [done|].
      cbn [length]. lia.
    + apply IH.
Qed.

Lemma split_one_absent sep s :
  sep ≠ "" → length (split sep s) = 1 → ∀ a b, s ≠ a +:+ sep +:+ b.
Proof.
  intros Hsep Hlen a b ->. unfold split in Hlen.
  pose proof (split_go_present sep a b "" Hsep). lia.
Qed.

(** X10: [get_file_path] returns [None] for an artifact without files,
    and raises [IndexError] when the location of the first file does not
    contain [scilifelab.se]. *)
Theorem get_file_path_edges (artifact : Artifact) :
  (files artifact = [] → get_file_path artifact = Ok None)
  ∧ (∀ file rest,
       files artifact = file :: rest →
       (∀ a b, content_location file ≠ a +:+ "scilifelab.se" +:+ b) →
       get_file_path artifact
       = Raise (IndexError "list index out of range")).
Proof.
  unfold get_file_path. split.
  - by intros ->.
  - intros file rest -> Habsent. simpl. unfold split.
    by rewrite split_go_absent.
Qed.

Lemma get_file_path_edges_witness :
  get_file_path {| files := [] |} = Ok None
  ∧ get_file_path
      {| files := [{| content_location := "sftp://lims.example.org/f.csv" |}] |}
    = Raise (IndexError "list index out of range").
Proof.
  split.
  - by apply (proj1 (get_file_path_edges {| files := [] |})).
  - apply (proj2 (get_file_path_edges
                    {| files := [{| content_location :=
                                      "sftp://lims.example.org/f.csv" |}] |})
             _ [] eq_refl).
    by apply split_one_absent.
Defined.

Lemma char_absent c p :
  free c p → ∀ a b, p ≠ a +:+ String c "" +:+ b.
Proof.
  intros Hfree a b ->. rewrite !string_forall_app in Hfree. simpl in Hfree.
  rewrite bool_decide_true in Hfree by done.
  by rewrite andb_false_r in Hfree.
Qed.

Lemma char_present c p :
  string_forall (λ a, negb (bool_decide (a = c))) p = false →
  ∃ a b, p = a +:+ String c "" +:+ b.
Proof.
  induction p as [|d p IH]; [done|]. simpl.
  destruct (decide (d = c)) as [->|Hne].
  - intros _. by exists "", p.
  - rewrite bool_decide_false by done. simpl.
    intros (a & b & ->)%IH. by exists (String d a), b.
Qed.

Lemma length_app_s a b :
  String.length (a +:+ b) = String.length a + String.length b.
Proof.
  induction a as [|c a IH]; [done|]. rewrite app_String. simpl. by rewrite IH.
Qed.

Lemma split_go_sep sep r cur :
  sep ≠ "" → split_go sep 0 cur (sep +:+ r) = cur :: split sep r.
Proof.
  intros Hsep. destruct r as [|c r].
  - by rewrite app_empty_r, split_go_hit_end.
  - by rewrite split_go_hit.
Qed.

(** When [split] returns more than one piece, the first piece is what
    stands before the first occurrence of [sep], and the other pieces
    are those of what follows that occurrence. *)
Lemma split_go_first sep s :
  sep ≠ "" →
  ∀ cur p q rest,
    split_go sep 0 cur s = p :: q :: rest →
    ∃ pre s',
      p = cur +:+ pre
      ∧ s = pre +:+ sep +:+ s'
      ∧ (∀ a b, s = a +:+ sep +:+ b → String.length pre ≤ String.length a)
      ∧ split sep s' = q :: rest.
Proof.
  intros Hsep. induction s as [|c s IH]; intros cur p q rest Hsplit; [done|].
  destruct (startswith sep (String c s)) eqn:Hstart.
  - apply startswith_inv in Hstart as [r Hr]. rewrite Hr in Hsplit |- *.
    rewrite split_go_sep in Hsplit by done. injection Hsplit as <- Hrest.
    exists "", r. rewrite app_empty_r, app_empty_l.
    repeat split; [|done]. intros a b _. simpl. lia.
  - cbn [split_go] in Hsplit. rewrite Hstart in Hsplit.
    destruct (IH _ _ _ _ Hsplit) as (pre & s' & -> & -> & Hfirst & Hrest).
    exists (String c pre), s'. rewrite app_assoc_s, app_String.
    repeat split; [|done]. intros [|d a] b Heq.
    + rewrite app_empty_l in Heq. rewrite Heq, startswith_app in Hstart.
      done.
    + rewrite app_String in Heq. injection Heq as _ Heq.
      pose proof (Hfirst a b Heq). simpl. lia.
Qed.

(** X11: a path returned by [get_file_path] is what follows the first
    [scilifelab.se] in the location of the first file, up to the next
    [scilifelab.se] if there is one, and it contains a dot.  No
    occurrence of [scilifelab.se] in the location begins before the one
    that ends [pre], and none begins inside the path. *)
Theorem get_file_path_result (artifact : Artifact) (file_path : string) :
  get_file_path artifact = Ok (Some file_path) →
  ∃ file rest pre post,
    files artifact = file :: rest
    ∧ content_location file = pre +:+ "scilifelab.se" +:+ file_path +:+ post
    ∧ (∀ a b, content_location file = a +:+ "scilifelab.se" +:+ b →
         String.length pre ≤ String.length a)
    ∧ (post = "" ∨ startswith "scilifelab.se" post = true)
    ∧ (∀ a b, file_path +:+ post = a +:+ "scilifelab.se" +:+ b →
         String.length file_path ≤ String.length a)
    ∧ ∃ a b, file_path = a +:+ "." +:+ b.
Proof.
  unfold get_file_path. destruct artifact as [[|file rest]]; [done|].
  simpl. intros Hget. exists file, rest.
  destruct (split "scilifelab.se" (content_location file))
    as [|p0 [|p more]] eqn:Hsplit; [done..|].
  simpl in Hget. destruct (bool_decide (1 < length (split "." p))) eqn:Hdot;
    [|done].
  injection Hget as ->. apply bool_decide_eq_true in Hdot.
  destruct (split_go_first "scilifelab.se" (content_location file)
              ltac:(done) "" _ _ _ Hsplit)
    as (pre & s' & _ & Hloc & Hfirst & Hrest).
  assert (∃ a b, file_path = a +:+ "." +:+ b) as Hhas_dot.
  { destruct (string_forall (λ a, negb (bool_decide (a = "."%char)))
                file_path) eqn:Hfree.
    - pose proof (char_absent _ _ Hfree) as Habsent.
      unfold split in Hdot. rewrite split_go_absent in Hdot by done.
      simpl in Hdot. lia.
    - by apply char_present. }
  destruct more as [|m more].
  - exists pre, "". rewrite app_empty_r.
    pose proof (join_split "scilifelab.se" s' ltac:(done)) as Hjoin.
    rewrite Hrest in Hjoin. simpl in Hjoin. subst s'.
    split; [done|]. split; [done|]. split; [done|]. split; [by left|].
    split; [|done]. intros a b Heq. exfalso.
    apply (split_one_absent "scilifelab.se" file_path ltac:(done)
             ltac:(by rewrite Hrest) a b Heq).
  - destruct (split_go_first "scilifelab.se" s' ltac:(done) "" _ _ _ Hrest)
      as (pre' & s'' & Hp & Hs' & Hnext & _).
    rewrite app_empty_l in Hp. subst pre'.
    exists pre, ("scilifelab.se" +:+ s'').
    split; [done|]. split; [by rewrite Hloc, Hs'|]. split; [done|].
    split; [right; exact (startswith_app "scilifelab.se" s'')|]. split; [by rewrite <-Hs'|done].
Qed.

Lemma get_file_path_result_witness :
  ∃ file rest pre post,
    [{| content_location := "sftp://lims.scilifelab.se/opt/f.csv" |}]
    = file :: rest
    ∧ content_location file = pre +:+ "scilifelab.se" +:+ "/opt/f.csv" +:+ post
    ∧ (∀ a b, content_location file = a +:+ "scilifelab.se" +:+ b →
         String.length pre ≤ String.length a)
    ∧ (post = "" ∨ startswith "scilifelab.se" post = true)
    ∧ (∀ a b, "/opt/f.csv" +:+ post = a +:+ "scilifelab.se" +:+ b →
         String.length "/opt/f.csv" ≤ String.length a)
    ∧ ∃ a b, "/opt/f.csv" = a +:+ "." +:+ b.
Proof.
  exact (get_file_path_result
           {| files := [{| content_location :=
                             "sftp://lims.scilifelab.se/opt/f.csv" |}] |}
           "/opt/f.csv" eq_refl).
Defined.

(** ** [format_file] *)

Lemma getitem_in_range {A} (l : list A) (i : Z) :
  (0 ≤ i < Z.of_nat (length l))%Z →
  ∃ x, getitem l i = Ok x ∧ l !! Z.to_nat i = Some x.
Proof.
  intros Hi. unfold getitem. cbv zeta.
  rewrite (bool_decide_false (i < 0)%Z) by lia.
  rewrite (bool_decide_true (0 ≤ i)%Z) by lia.
  assert (Z.to_nat i < length l) as Hlt by lia.
  destruct (lookup_lt_is_Some_2 l (Z.to_nat i) Hlt) as [x Hx].
  rewrite Hx. by exists x.
Qed.

Lemma foldl_raise {S X} (step : result S → X → result S) e (l : list X) :
  (∀ e x, step (Raise e) x = Raise e) → foldl step (Raise e) l = Raise e.
Proof. intros Hraise. induction l as [|x l IH]; [done|]. simpl. by rewrite Hraise. Qed.

Lemma foldl_result_inv {S X} (step : result S → X → result S)
    (Inv : S → Prop) :
  (∀ e x, step (Raise e) x = Raise e) →
  (∀ st x st', Inv st → step (Ok st) x = Ok st' → Inv st') →
  ∀ l st st', Inv st → foldl step (Ok st) l = Ok st' → Inv st'.
Proof.
  intros Hraise Hstep. induction l as [|x l IH]; intros st st' Hinv; simpl.
  - by intros [= <-].
  - destruct (step (Ok st) x) as [st1|e] eqn:Hx.
    + by apply IH, (Hstep st x).
    + by rewrite foldl_raise.
Qed.

Lemma table_step_raise fh hr col fk e x :
  table_step fh hr col fk (Raise e) x = Raise e.
Proof. done. Qed.

Lemma fill_col_raise ks line e col : fill_col ks line (Raise e) col = Raise e.
Proof. done. Qed.

(** Without a header the loop does nothing. *)
Lemma table_step_no_header hr col fk st x :
  keys st = [] → (hr = None ∨ hr = Some 0%Z) → (0 ≤ col)%Z →
  table_step [] hr col fk (Ok st) x = Ok st.
Proof.
  intros Hkeys Hhr Hcol. destruct x as [row line].
  unfold table_step, table_row, table_header.
  cbn [mbind result_bind Py.bind fst snd]. rewrite Hkeys.
  rewrite (bool_decide_true ([] = [])) by done. cbn [negb andb mbind result_bind Py.bind].
  assert (∃ head,
            (if bool_decide (col < Z.of_nat (length line))%Z
             then Some <$> getitem line col else Ok None) = Ok head)
    as [head ->].
  { case_bool_decide as Hlt; [|by eexists].
    destruct (getitem_in_range line col ltac:(lia)) as (v & -> & _).
    by eexists. }
  cbn [mbind result_bind Py.bind]. by destruct Hhr as [->| ->].
Qed.

(** X12: when no header is chosen ([first_header] is [None], empty or
    an empty list, and [header_row] is [None] or [0]), [format_file]
    with a non-negative [root_key_col] prints that the file could not be
    formatted and exits, whatever the file holds.  In particular
    [header_row=0] does not select the first row. *)
Theorem format_file_no_header (parsed_file : list (list string))
    (name : string) (first_header : header_arg) (header_row : option Z)
    (root_key_col : Z) (find_keys : list string) :
  header_list first_header = [] →
  (header_row = None ∨ header_row = Some 0%Z) →
  (0 ≤ root_key_col)%Z →
  format_file parsed_file name first_header header_row root_key_col find_keys
  = (["Could not format parsed file " +:+ name +:+ "."],
     Raise (Epp.SystemExit "-1")).
Proof.
  intros Hfh Hhr Hcol. unfold format_file. rewrite Hfh.
  assert (∀ (l : list (nat * list string)) st,
            keys st = [] →
            foldl (table_step [] header_row root_key_col find_keys)
                  (Ok st) l = Ok st) as Hfold.
  { induction l as [|x l IH]; intros st Hst; [done|]. cbn [foldl].
    rewrite table_step_no_header by done. by apply IH. }
  rewrite Hfold by done. simpl. by rewrite app_empty_l.
Qed.

Lemma format_file_no_header_witness :
  format_file [["Sample"; "Conc"]; ["P1"; "2.5"]] "result" HNone (Some 0%Z) 0 []
  = (["Could not format parsed file result."], Raise (Epp.SystemExit "-1")).
Proof.
  apply format_file_no_header; [reflexivity|by right|lia].
Defined.

(** What one row can do to the table. *)
Lemma table_row_file_info col fk st line st' :
  table_row col fk st line = Ok st' →
  keys st' = keys st
  ∧ ((file_info st' = file_info st
      ∧ (duplicated_lines st' = duplicated_lines st
         ∨ ∃ k, is_Some (file_info st !! k)
                ∧ duplicated_lines st' = duplicated_lines st ++ [k]))
     ∨ ∃ k d,
         getitem line col = Ok k
         ∧ file_info st !! k = None
         ∧ file_info st' = <[k := d]> (file_info st)
         ∧ duplicated_lines st' = duplicated_lines st
         ∧ ((fk = [] ∧ k ∉ exeptions) ∨ k ∈ fk)
         ∧ (if bool_decide (duplicated_lines st = []) then
              foldl (fill_col (keys st) line) (Ok ∅)
                    (seq 0 (length (keys st))) = Ok d
            else d = ∅)).
Proof.
  unfold table_row.
  destruct (negb (bool_decide (keys st = []))
            && bool_decide (length line = length (keys st)));
    [|intros [= <-]; split; [done|]; left; auto].
  destruct (getitem line col) as [k|e] eqn:Hk; [|done].
  cbn [mbind result_bind Py.bind].
  case_bool_decide as Hin.
  { intros [= <-]. simpl. split; [done|]. left. split; [done|].
    right. by exists k. }
  cbv zeta.
  destruct (bool_decide (fk = []) && negb (bool_decide (k ∈ exeptions))
            || bool_decide (k ∈ fk)) eqn:Hcond;
    [|intros [= <-]; split; [done|]; left; auto].
  destruct (if bool_decide (duplicated_lines st = []) then _ else _)
    as [d|e] eqn:Hd; [|done].
  cbn [mbind result_bind Py.bind]. intros [= <-]. simpl. split; [done|]. right.
  exists k, d. split; [done|]. split.
  { destruct (file_info st !! k) eqn:Hl; [|done]. by destruct Hin. }
  do 2 (split; [done|]). split.
  - apply orb_true_iff in Hcond as [Hc|Hc].
    + apply andb_true_iff in Hc as [?%bool_decide_eq_true Hc].
      apply negb_true_iff, bool_decide_eq_false in Hc. by left.
    + apply bool_decide_eq_true in Hc. by right.
  - case_bool_decide; [done|]. by injection Hd as <-.
Qed.

Lemma table_header_file_info fh hr col st row line st' :
  table_header fh hr col st row line = Ok st' →
  file_info st' = file_info st
  ∧ duplicated_lines st' = duplicated_lines st
  ∧ (keys st' = keys st ∨ keys st' = line).
Proof.
  unfold table_header.
  destruct (if bool_decide (col < _)%Z then _ else _) as [head|e]; [|done].
  cbn [mbind result_bind Py.bind].
  destruct (negb (bool_decide (fh = [])) && _);
    [intros [= <-]; simpl; auto|].
  destruct (match hr with Some _ => _ | None => _ end);
    intros [= <-]; simpl; auto.
Qed.

Lemma fill_col_names ks line d col d' :
  fill_col ks line (Ok d) col = Ok d' →
  (∀ h, is_Some (d !! h) → h ≠ "") → ∀ h, is_Some (d' !! h) → h ≠ "".
Proof.
  unfold fill_col. cbn [mbind result_bind Py.bind].
  destruct (getitem ks (Z.of_nat col)) as [k|e]; [|done]. cbn [mbind result_bind Py.bind].
  case_bool_decide as Hk.
  - destruct (getitem line (Z.of_nat col)) as [v|e]; [|done]. cbn [mbind result_bind Py.bind].
    intros [= <-] Hd h. rewrite lookup_insert.
    case_decide; [by subst|apply Hd].
  - destruct (getitem ks (Z.of_nat col - 1)) as [kp|e]; [|done].
    cbn [mbind result_bind Py.bind]. case_bool_decide as Hkp; [|by intros [= <-]].
    destruct (d !! kp) as [old|]; [|done].
    destruct (getitem line (Z.of_nat col)) as [v|e]; [|done]. cbn [mbind result_bind Py.bind].
    intros [= <-] Hd h. rewrite lookup_insert.
    case_decide; [by subst|apply Hd].
Qed.

(** X13: when [format_file] returns, nothing was printed and the result
    is not empty; every row name in it passed the selection (with an
    empty [find_keys], it is none of [Sample], [Fail] and the empty
    string; otherwise it is one of [find_keys]); and no column of a row
    dict has the empty name. *)
Theorem format_file_result (parsed_file : list (list string))
    (name : string) (first_header : header_arg) (header_row : option Z)
    (root_key_col : Z) (find_keys : list string)
    (printed : list string) (info : gmap string (gmap string cell)) :
  format_file parsed_file name first_header header_row root_key_col find_keys
  = (printed, Ok info) →
  printed = []
  ∧ info ≠ ∅
  ∧ ∀ root_key d, info !! root_key = Some d →
      ((find_keys = [] ∧ root_key ∉ exeptions) ∨ root_key ∈ find_keys)
      ∧ ∀ h, is_Some (d !! h) → h ≠ "".
Proof.
  unfold format_file.
  destruct (foldl _ _ _) as [st|e] eqn:Hfold; [|done].
  cbv zeta. case_bool_decide as Hmsg; [|done].
  intros [= <- <-]. split; [done|]. split.
  { intros Hempty. rewrite Hempty, bool_decide_true in Hmsg by done.
    destruct (if bool_decide (duplicated_lines st = []) then _ else _);
      done. }
  pose (Inv := λ st : table_state,
          ∀ root_key d, file_info st !! root_key = Some d →
            ((find_keys = [] ∧ root_key ∉ exeptions) ∨ root_key ∈ find_keys)
            ∧ ∀ h, is_Some (d !! h) → h ≠ "").
  apply (foldl_result_inv _ Inv (table_step_raise _ _ _ _)) in Hfold;
    [done| |by intros ??; simpl; rewrite lookup_empty].
  clear. intros st [row line] st' Hinv. unfold table_step.
  cbn [mbind result_bind Py.bind fst snd].
  destruct (table_row _ _ _ _) as [st1|e] eqn:Hrow; [|done].
  cbn [mbind result_bind Py.bind]. intros (Hinfo & _ & _)%table_header_file_info.
  apply table_row_file_info in Hrow as [_ Hrow].
  unfold Inv. rewrite Hinfo.
  destruct Hrow as [[-> _]|(k & d & _ & _ & -> & _ & Hsel & Hd)]; [done|].
  intros root_key d'. rewrite lookup_insert. case_decide as Hk; [|apply Hinv].
  subst. intros [= <-]. split; [done|].
  case_bool_decide.
  - refine (foldl_result_inv _ (λ d, ∀ h, is_Some (d !! h) → h ≠ "")
              (fill_col_raise _ _) _ _ _ _ _ Hd).
    + intros d1 col d2 Hd1 Hfill. by eapply fill_col_names.
    + intros h. rewrite lookup_empty. by intros [? ?].
  - subst d. intros h. rewrite lookup_empty. by intros [? ?].
Qed.

Lemma format_file_result_witness :
  let info : gmap string (gmap string cell) :=
    {["P1" := {["Sample ID" := Str "P1"; "Conc" := Str "2.5"]};
      "P2" := {["Sample ID" := Str "P2"; "Conc" := Str "3.1"]}]} in
  ([] : list string) = []
  ∧ info ≠ ∅
  ∧ ∀ root_key d, info !! root_key = Some d →
      (([] : list string) = [] ∧ root_key ∉ exeptions ∨ root_key ∈ [])
      ∧ ∀ h, is_Some (d !! h) → h ≠ "".
Proof.
  exact (format_file_result
           [["Sample ID"; "Conc"]; ["P1"; "2.5"]; ["Sample"; "x"];
            ["P2"; "3.1"]]
           "result" (HStr "Sample ID") None 0 [] [] _ eq_refl).
Defined.

(** ** [format_file] on a plain table *)

Lemma dict_of_snoc {V} (items : list (string * V)) k v :
  dict_of (items ++ [(k, v)]) = <[k := v]> (dict_of items).
Proof. unfold dict_of. by rewrite foldl_app. Qed.

Lemma getitem_nat {A} (l : list A) (i : nat) x :
  l !! i = Some x → getitem l (Z.of_nat i) = Ok x.
Proof.
  intros Hx. pose proof (lookup_lt_Some _ _ _ Hx).
  destruct (getitem_in_range l (Z.of_nat i) ltac:(lia)) as (y & -> & Hy).
  rewrite Nat2Z.id in Hy. congruence.
Qed.

(** The inner loop, when every column has a name. *)
Lemma fill_cols_named header line :
  Forall (λ h, h ≠ "") header → length line = length header →
  foldl (fill_col header line) (Ok ∅) (seq 0 (length header))
  = Ok (row_dict header line).
Proof.
  intros Hnames Hlen.
  assert (∀ m, m ≤ length header →
            foldl (fill_col header line) (Ok ∅) (seq 0 m)
            = Ok (dict_of (take m (zip header (Str <$> line))))) as Hm.
  { induction m as [|m IH]; intros Hle; [done|].
    rewrite seq_S, foldl_app, IH by lia. cbn [foldl plus].
    destruct (lookup_lt_is_Some_2 header m ltac:(lia)) as [h Hh].
    destruct (lookup_lt_is_Some_2 line m ltac:(lia)) as [v Hv].
    unfold fill_col. cbn [mbind result_bind Py.bind].
    rewrite (getitem_nat _ _ _ Hh). cbn [mbind result_bind Py.bind].
    rewrite bool_decide_true
      by (rewrite Forall_forall in Hnames;
          by apply Hnames, (list_elem_of_lookup_2 _ m)).
    rewrite (getitem_nat _ _ _ Hv). cbn [mbind result_bind Py.bind].
    f_equal. rewrite <-dict_of_snoc. f_equal.
    erewrite take_S_r; [done|].
    rewrite lookup_zip_with, Hh. simpl. by rewrite list_lookup_fmap, Hv. }
  rewrite Hm by done. unfold row_dict. f_equal. f_equal.
  apply firstn_all2. rewrite length_zip_with, length_fmap. lia.
Qed.

Lemma table_row_data header st r :
  keys st = header → header ≠ [] → Forall (λ h, h ≠ "") header →
  length r = length header → row_name r ∉ exeptions →
  table_row 0 [] st r
  = Ok (if decide (is_Some (file_info st !! row_name r)) then
          {| file_info := file_info st; keys := header;
             duplicated_lines := duplicated_lines st ++ [row_name r] |}
        else
          {| file_info :=
               <[row_name r := if decide (duplicated_lines st = [])
                               then row_dict header r else ∅]>
                 (file_info st);
             keys := header;
             duplicated_lines := duplicated_lines st |}).
Proof.
  intros Hkeys Hne Hnames Hlen Hexc. unfold table_row. rewrite Hkeys.
  rewrite (bool_decide_false (header = [])), bool_decide_true by done.
  cbn [negb andb].
  destruct r as [|k r]; [by destruct header|].
  change (row_name (k :: r)) with k in *.
  change (getitem (k :: r) 0) with (Ok (A := string) k).
  cbn [mbind result_bind Py.bind].
  rewrite (bool_decide_true ([] = [])), (bool_decide_false (k ∈ exeptions))
    by done.
  cbn [negb andb orb].
  destruct (decide (is_Some (file_info st !! k))) as [Hin|Hin].
  - by rewrite bool_decide_true.
  - rewrite bool_decide_false by done.
    destruct (decide (duplicated_lines st = [])) as [Hdup|Hdup].
    + rewrite bool_decide_true, fill_cols_named by done. done.
    + by rewrite bool_decide_false.
Qed.

Lemma table_header_data hl st row r :
  row_name r ∉ hl → length r ≠ 0 →
  table_header hl None 0 st row r = Ok st.
Proof.
  intros Hname Hlen. unfold table_header.
  destruct r as [|k r]; [done|]. unfold row_name in Hname. simpl in Hname.
  rewrite (bool_decide_true (0 < Z.of_nat (length (k :: r)))%Z)
    by (cbn [length]; lia).
  change (getitem (k :: r) 0) with (Ok (A := string) k).
  cbn [fmap result_fmap mbind result_bind Py.bind].
  rewrite (bool_decide_false (k ∈ hl)) by done.
  by rewrite andb_false_r.
Qed.

Abbreviation insert_row header :=
  (λ (m : gmap string (gmap string cell)) (r : list string),
     <[row_name r := row_dict header r]> m).

(** The rows of a plain table, read one after the other. *)
Lemma plain_rows_fold hl header :
  header ≠ [] → Forall (λ h, h ≠ "") header →
  ∀ rows (g : nat → nat) st,
    keys st = header →
    Forall (λ r, length r = length header
                 ∧ row_name r ∉ hl ∧ row_name r ∉ exeptions) rows →
    ∃ st',
      foldl (table_step hl None 0 []) (Ok st)
            (imap (λ i line, (g i, line)) rows) = Ok st'
      ∧ keys st' = header
      ∧ (duplicated_lines st = [] →
         NoDup (row_name <$> rows) →
         (∀ r, r ∈ rows → file_info st !! row_name r = None) →
         duplicated_lines st' = []
         ∧ file_info st' = foldl (insert_row header) (file_info st) rows)
      ∧ (duplicated_lines st' = [] →
         duplicated_lines st = [] ∧ NoDup (row_name <$> rows)
         ∧ ∀ r, r ∈ rows → file_info st !! row_name r = None).
Proof.
  intros Hne Hnames. induction rows as [|r rows IH]; intros g st Hkeys Hrows.
  { exists st. split; [done|]. split; [done|]. split; [done|].
    intros ?. split; [done|]. split; [constructor|].
    intros r Hr. by apply not_elem_of_nil in Hr. }
  apply Forall_cons in Hrows as [(Hlen & Hhl & Hexc) Hrows].
  rewrite imap_cons. cbn [foldl]. unfold table_step at 2.
  cbn [mbind result_bind Py.bind fst snd].
  rewrite (table_row_data header) by done.
  cbn [mbind result_bind Py.bind].
  rewrite table_header_data
    by (try done; rewrite Hlen; by destruct header).
  match goal with
  | |- context [foldl _ (Ok ?s) _] => set (st1 := s)
  end.
  destruct (IH (g ∘ S) st1) as (st' & Hfold & Hkeys' & Hgood & Hdup);
    [by unfold st1; destruct (decide _)|done|].
  exists st'. split; [exact Hfold|]. split; [done|]. split.
  - intros Hd Hnodup Hfresh. rewrite fmap_cons in Hnodup.
    apply NoDup_cons in Hnodup as [Hnotin Hnodup].
    assert (¬ is_Some (file_info st !! row_name r)) as Hnew.
    { rewrite (Hfresh r) by left. by intros [? ?]. }
    assert (st1 = {| file_info := <[row_name r := row_dict header r]>
                                    (file_info st);
                     keys := header;
                     duplicated_lines := duplicated_lines st |}) as Hst1.
    { unfold st1. rewrite decide_False by done. by rewrite decide_True. }
    rewrite Hst1 in Hgood. simpl in Hgood. apply Hgood; [done..|].
    intros r' Hr'. rewrite lookup_insert_ne; [apply Hfresh; by right|].
    intros Heq. apply Hnotin. rewrite Heq. by apply list_elem_of_fmap_2.
  - intros Hd'. destruct (Hdup Hd') as (Hd1 & Hnodup & Hfresh).
    unfold st1 in Hd1, Hfresh. destruct (decide (is_Some _)) as [Hin|Hnew].
    { simpl in Hd1. by destruct (duplicated_lines st). }
    simpl in Hd1, Hfresh. split; [done|].
    assert (∀ r', r' ∈ rows → row_name r' ≠ row_name r) as Hother.
    { intros r' Hr' Heq. specialize (Hfresh r' Hr').
      by rewrite Heq, lookup_insert_eq in Hfresh. }
    split.
    + rewrite fmap_cons. apply NoDup_cons. split; [|done].
      intros (r' & Hname & Hr')%list_elem_of_fmap. by apply (Hother r').
    + intros r' [->|Hr']%elem_of_cons.
      * destruct (file_info st !! row_name r) eqn:Hl; [|done].
        by destruct Hnew.
      * specialize (Hfresh r' Hr').
        by rewrite lookup_insert_ne in Hfresh by (symmetry; by apply Hother).
Qed.

Lemma plain_table_fold fh header rows :
  plain_table (header_list fh) header rows →
  ∃ st',
    foldl (table_step (header_list fh) None 0 [])
          (Ok {| file_info := ∅; keys := []; duplicated_lines := [] |})
          (imap (λ row line, (row, line)) (header :: rows)) = Ok st'
    ∧ (NoDup (row_name <$> rows) →
       duplicated_lines st' = []
       ∧ file_info st' = foldl (insert_row header) ∅ rows)
    ∧ (duplicated_lines st' = [] → NoDup (row_name <$> rows)).
Proof.
  intros ((h0 & Hh0 & Hin) & Hnames & Hrows).
  destruct header as [|h hs]; [done|]. injection Hh0 as ->.
  rewrite imap_cons. cbn [foldl]. unfold table_step at 2.
  cbn [mbind result_bind Py.bind fst snd]. unfold table_row at 1.
  cbn [keys]. rewrite (bool_decide_true ([] = [])) by done.
  cbn [negb andb mbind result_bind Py.bind]. unfold table_header.
  rewrite (bool_decide_true (0 < _)%Z) by (cbn [length]; lia).
  change (getitem (h0 :: hs) 0) with (Ok (A := string) h0).
  cbn [fmap result_fmap mbind result_bind Py.bind].
  rewrite (bool_decide_false (header_list fh = []))
    by (intros Hnil; rewrite Hnil in Hin; by apply not_elem_of_nil in Hin).
  rewrite (bool_decide_true (h0 ∈ header_list fh)) by done.
  cbn [negb andb file_info duplicated_lines].
  destruct (plain_rows_fold (header_list fh) (h0 :: hs) ltac:(done) Hnames
              rows S {| file_info := ∅; keys := h0 :: hs;
                        duplicated_lines := [] |} eq_refl Hrows)
    as (st' & Hfold & _ & Hgood & Hdup).
  exists st'. split; [exact Hfold|]. split.
  - intros Hnodup. apply Hgood; [done..|]. intros. apply lookup_empty.
  - intros Hd. by apply Hdup.
Qed.

Lemma insert_rows_non_empty header rows m :
  rows ≠ [] → foldl (insert_row header) m rows ≠ ∅.
Proof.
  destruct rows as [|r rows _] using rev_ind; [done|]. intros _.
  rewrite foldl_app. apply insert_non_empty.
Qed.

(** X14: a plain table with at least one row and no row name twice is
    formatted without error: the result maps the name of each row to the
    dict of its cells by column name, and nothing is printed. *)
Theorem format_file_plain_table (header : list string)
    (rows : list (list string)) (name : string) (first_header : header_arg) :
  plain_table (header_list first_header) header rows →
  rows ≠ [] →
  NoDup (row_name <$> rows) →
  format_file (header :: rows) name first_header None 0 []
  = ([], Ok (dict_of ((λ r, (row_name r, row_dict header r)) <$> rows))).
Proof.
  intros Hplain Hrows Hnodup. unfold format_file.
  destruct (plain_table_fold _ _ _ Hplain) as (st' & -> & Hgood & _).
  destruct (Hgood Hnodup) as [-> ->]. cbv zeta.
  rewrite (bool_decide_true ([] = [])) by done.
  rewrite (bool_decide_false (foldl _ _ _ = ∅))
    by by apply insert_rows_non_empty.
  rewrite (bool_decide_true ("" = "")) by done.
  unfold dict_of at 1. by rewrite foldl_fmap.
Qed.

(** X15: in a plain table where two rows have the same name,
    [format_file] prints a message that starts with [Row names] and
    exits: it never returns a table with one of the rows silently
    dropped. *)
Theorem format_file_duplicate_rows (header : list string)
    (rows : list (list string)) (name : string) (first_header : header_arg) :
  plain_table (header_list first_header) header rows →
  ¬ NoDup (row_name <$> rows) →
  ∃ message,
    format_file (header :: rows) name first_header None 0 []
    = ([message], Raise (Epp.SystemExit "-1"))
    ∧ startswith "Row names " message = true.
Proof.
  intros Hplain Hdup. unfold format_file.
  destruct (plain_table_fold _ _ _ Hplain) as (st' & -> & _ & Hnodup).
  cbv zeta. rewrite (bool_decide_false (duplicated_lines st' = []))
    by (intros Hd; by apply Hdup, Hnodup).
  eexists. split.
  - rewrite (bool_decide_false (_ = "")); [done|].
    destruct (bool_decide (file_info st' = ∅)); by norm_app.
  - destruct (bool_decide (file_info st' = ∅)); norm_app;
      exact (startswith_app "Row names " _).
Qed.

Lemma sample_plain_table rows :
  Forall (λ r, length r = 3 ∧ row_name r ∉ ["Sample ID"]
               ∧ row_name r ∉ exeptions) rows →
  plain_table (header_list (HStr "Sample ID")) sample_header rows.
Proof.
  intros Hrows. split; [|split; [|done]].
  - exists "Sample ID". split; [done|]. left.
  - by repeat constructor.
Qed.

Lemma format_file_plain_table_witness :
  plain_table (header_list (HStr "Sample ID")) sample_header sample_rows
  ∧ sample_rows ≠ []
  ∧ NoDup (row_name <$> sample_rows)
  ∧ format_file (sample_header :: sample_rows) "result" (HStr "Sample ID")
      None 0 []
    = ([], Ok (dict_of ((λ r, (row_name r, row_dict sample_header r))
                          <$> sample_rows))).
Proof.
  assert (plain_table (header_list (HStr "Sample ID")) sample_header
            sample_rows) as Hplain.
  { apply sample_plain_table.
    repeat constructor; by apply (bool_decide_unpack _). }
  assert (NoDup (row_name <$> sample_rows)) as Hnodup
    by by apply (bool_decide_unpack _).
  split; [exact Hplain|]. split; [done|]. split; [exact Hnodup|].
  exact (format_file_plain_table sample_header sample_rows "result"
           (HStr "Sample ID") Hplain ltac:(done) Hnodup).
Defined.

Lemma format_file_duplicate_rows_witness :
  plain_table (header_list (HStr "Sample ID")) sample_header
    (sample_rows ++ sample_rows)
  ∧ ¬ NoDup (row_name <$> sample_rows ++ sample_rows)
  ∧ ∃ message,
      format_file (sample_header :: sample_rows ++ sample_rows) "result"
        (HStr "Sample ID") None 0 []
      = ([message], Raise (Epp.SystemExit "-1"))
      ∧ startswith "Row names " message = true.
Proof.
  assert (plain_table (header_list (HStr "Sample ID")) sample_header
            (sample_rows ++ sample_rows)) as Hplain.
  { apply sample_plain_table.
    repeat constructor; by apply (bool_decide_unpack _). }
  assert (¬ NoDup (row_name <$> sample_rows ++ sample_rows)) as Hdup
    by by apply (bool_decide_unpack _).
  split; [exact Hplain|]. split; [exact Hdup|].
  exact (format_file_duplicate_rows sample_header
           (sample_rows ++ sample_rows) "result" (HStr "Sample ID")
           Hplain Hdup).
Defined.

(** ** [format_file]: a first column without a name *)

Lemma getitem_minus_one {A} (l : list A) x :
  last l = Some x → getitem l (-1) = Ok x.
Proof.
  intros Hlast. unfold getitem. cbv zeta.
  rewrite (bool_decide_true (-1 < 0)%Z) by lia.
  assert (l ≠ []) as Hne by by intros ->.
  assert (0 < length l) by (destruct l; [done|simpl; lia]).
  rewrite bool_decide_true by lia.
  rewrite last_lookup in Hlast.
  replace (Z.to_nat (-1 + Z.of_nat (length l))) with (pred (length l)) by lia.
  by rewrite Hlast.
Qed.

Lemma fill_cols_unnamed_first hs line kl :
  last ("" :: hs) = Some kl → kl ≠ "" →
  foldl (fill_col ("" :: hs) line) (Ok ∅) (seq 0 (length ("" :: hs)))
  = Raise (KeyError kl).
Proof.
  intros Hlast Hkl. cbn [length seq foldl]. unfold fill_col at 2.
  cbn [mbind result_bind Py.bind].
  change (getitem ("" :: hs) (Z.of_nat 0)) with (Ok (A := string) "").
  cbn [mbind result_bind Py.bind].
  rewrite (bool_decide_false ("" ≠ "")) by (by intros []).
  change (Z.of_nat 0 - 1)%Z with (-1)%Z.
  rewrite (getitem_minus_one _ _ Hlast). cbn [mbind result_bind Py.bind].
  rewrite bool_decide_true, lookup_empty by done.
  apply foldl_raise. apply fill_col_raise.
Qed.

(** X16: when the header line (here chosen by [header_row=1]) leaves
    its first column without a name and names its last column, the first
    row that is read as data makes [format_file] raise [KeyError] for the
    name of the last column: the tuple for an unnamed column is built
    from the column before it, which for the first column is the last
    one, not yet filled. *)
Theorem format_file_unnamed_first_column (junk : list string)
    (hs row : list string) (rest : list (list string)) (name kl : string)
    (first_header : header_arg) :
  header_list first_header = [] →
  last ("" :: hs) = Some kl → kl ≠ "" →
  length row = length ("" :: hs) →
  row_name row ∉ exeptions →
  format_file (junk :: ("" :: hs) :: row :: rest) name first_header
    (Some 1%Z) 0 []
  = ([], Raise (KeyError kl)).
Proof.
  intros Hfh Hlast Hkl Hlen Hexc. unfold format_file. rewrite Hfh.
  rewrite !imap_cons. cbn [foldl compose].
  (* the line before the header *)
  unfold table_step at 4. cbn [mbind result_bind Py.bind fst snd].
  unfold table_row at 1. cbn [keys].
  rewrite (bool_decide_true ([] = [])) by done.
  cbn [negb andb mbind result_bind Py.bind].
  assert (table_header [] (Some 1%Z) 0
            {| file_info := ∅; keys := []; duplicated_lines := [] |} 0 junk
          = Ok {| file_info := ∅; keys := []; duplicated_lines := [] |})
    as ->.
  { unfold table_header.
    destruct (if bool_decide (0 < _)%Z then _ else _) as [head|e] eqn:Hhead.
    - by cbn [mbind result_bind Py.bind].
    - case_bool_decide as Hlt; [|done].
      by destruct (getitem_in_range junk 0 ltac:(lia)) as (v & Hv & _);
        rewrite Hv in Hhead. }
  (* the header *)
  unfold table_step at 3. cbn [mbind result_bind Py.bind fst snd].
  unfold table_row at 1. cbn [keys].
  rewrite (bool_decide_true ([] = [])) by done.
  cbn [negb andb mbind result_bind Py.bind].
  assert (table_header [] (Some 1%Z) 0
            {| file_info := ∅; keys := []; duplicated_lines := [] |} 1
            ("" :: hs)
          = Ok {| file_info := ∅; keys := "" :: hs; duplicated_lines := [] |})
    as -> by done.
  (* the first row of data *)
  unfold table_step at 2. cbn [mbind result_bind Py.bind fst snd].
  unfold table_row. cbn [keys file_info duplicated_lines].
  rewrite (bool_decide_false ("" :: hs = [])), bool_decide_true by done.
  cbn [negb andb].
  destruct row as [|k row]; [done|].
  change (row_name (k :: row)) with k in Hexc.
  change (getitem (k :: row) 0) with (Ok (A := string) k).
  cbn [mbind result_bind Py.bind].
  rewrite lookup_empty.
  rewrite (bool_decide_false (is_Some None)) by (by intros [? ?]).
  rewrite (bool_decide_true ([] = [])), (bool_decide_false (k ∈ exeptions))
    by done.
  cbn [negb andb orb].
  rewrite (fill_cols_unnamed_first hs (k :: row) kl Hlast Hkl).
  cbn [mbind result_bind Py.bind].
  by rewrite foldl_raise by apply table_step_raise.
Qed.

Lemma format_file_unnamed_first_column_witness :
  format_file (["Results"] :: [""; "Conc"] :: ["P1"; "2.5"] :: []) "result"
    HNone (Some 1%Z) 0 []
  = ([], Raise (KeyError "Conc")).
Proof.
  apply format_file_unnamed_first_column;
    [reflexivity|reflexivity|discriminate|reflexivity|].
  by apply (bool_decide_unpack _).
Defined.

(** ** [set_field] and [CopyField], further *)

Section LimsMore.

Import Epp.

Context {value : Type}.
Context (value_ne : value → value → bool) (value_str : value → string).
Context (udf_setitem : @Entity value → string → option value
                       → result (@Entity value)).
Context (put_response : list (@Entity value) → @Entity value → option exn).
Context (now : string).

Abbreviation set_field' := (Epp.set_field put_response).
Abbreviation copy_udf' :=
  (Epp.copy_udf value_ne value_str udf_setitem put_response now).
Abbreviation ne' := (Epp.ne value_ne).

(** X17: whatever the outcome, [set_field] sends exactly one request,
    for the element as it is, and leaves the elements, [sys.stderr] and
    the files as they were; the log grows by at most one record, a
    warning. *)
Theorem set_field_frame (element : nat) (st : State) :
  let st' := (set_field' element st).2 in
  requests st' = (requests st ++ [store st element])%list
  ∧ store st' = store st
  ∧ stderr st' = stderr st
  ∧ files st' = files st
  ∧ (logging st' = logging st
     ∨ ∃ msg, logging st' = (logging st ++ [("WARNING", msg)])%list).
Proof.
  unfold Epp.set_field, try_except, Epp.put, log.
  destruct (put_response _ _) as [e|]; simpl; [|by auto 10].
  destruct (caught e); simpl; repeat split; eauto.
Qed.

(** X18: when the values differ, the assignment to the udf is accepted
    and the server refuses the update with a [TypeError] or an
    [HTTPError], [copy_udf] ends in [SystemExit(-1)] after one request.
    The destination element keeps the new value although the update
    failed, the error is printed to [sys.stderr], the changelog, when
    one is given, has already received its line, and the message that
    follows an update is not logged. *)
Theorem copy_udf_refused (self : CopyField) (changelog_f : option string)
    (st : State) (d' : Entity) (e : exn) :
  ne' (s_field self) (old_dest_udf self) = true →
  udf_setitem (store st (d_elt self)) (d_udf_name self) (s_field self)
    = Ok d' →
  put_response (requests st) d' = Some e →
  caught e = true →
  let out := copy_udf' self changelog_f st in
  out.1 = Raise (SystemExit "-1")
  ∧ store out.2 = <[d_elt self := d']> (store st)
  ∧ requests out.2 = (requests st ++ [d'])%list
  ∧ stderr out.2
    = (stderr st ++ ["Error while updating element: " +:+ exn_msg e])%list
  ∧ logging out.2
    = (logging st
       ++ [("INFO", "Copying from element with id: "
                    +:+ id (store st (s_elt self))
                    +:+ " to element with  id: "
                    +:+ id (store st (d_elt self)))])%list
  ∧ match changelog_f with
    | Some f => ∃ line,
        files out.2 = <[f := (default [] (files st !! f) ++ [line])%list]>
                        (files st)
    | None => files out.2 = files st
    end.
Proof.
  intros Hne Hset Hput Hcaught. unfold Epp.copy_udf. rewrite Hne.
  unfold bindM, _log_before_change, _set_udf, try_except, bindM,
    setitem_udf, Epp.put, write, log, get, ret, _log_after_change,
    print_stderr, raise.
  destruct changelog_f; simpl; rewrite Hset; simpl;
    rewrite fn_lookup_insert, Hput; simpl; rewrite Hcaught; simpl;
    repeat split; eauto.
Qed.

(** X19: when the values differ, the assignment is accepted and so is
    the update, [copy_udf] returns [True]; the destination element has
    the new value, one request was sent, nothing went to [sys.stderr],
    and the log has two more records, the second one for the update. *)
Theorem copy_udf_accepted (self : CopyField) (changelog_f : option string)
    (st : State) (d' : Entity) :
  ne' (s_field self) (old_dest_udf self) = true →
  udf_setitem (store st (d_elt self)) (d_udf_name self) (s_field self)
    = Ok d' →
  put_response (requests st) d' = None →
  let out := copy_udf' self changelog_f st in
  out.1 = Ok true
  ∧ store out.2 = <[d_elt self := d']> (store st)
  ∧ requests out.2 = (requests st ++ [d'])%list
  ∧ stderr out.2 = stderr st
  ∧ logging out.2
    = (logging st
       ++ [("INFO", "Copying from element with id: "
                    +:+ id (store st (s_elt self))
                    +:+ " to element with  id: "
                    +:+ id (store st (d_elt self)));
           ("INFO", "Updated " +:+ d_type self +:+ " udf: "
                    +:+ d_udf_name self +:+ ", from "
                    +:+ str value_str (old_dest_udf self) +:+ " to "
                    +:+ str value_str (s_field self) +:+ ".")])%list.
Proof.
  intros Hne Hset Hput. unfold Epp.copy_udf. rewrite Hne.
  unfold bindM, _log_before_change, _set_udf, try_except, bindM,
    setitem_udf, Epp.put, write, log, get, ret, _log_after_change,
    print_stderr, raise.
  destruct changelog_f; simpl; rewrite Hset; simpl;
    rewrite fn_lookup_insert, Hput; simpl; repeat split;
    by rewrite <-app_assoc.
Qed.

(** X20: when the assignment to the udf itself raises, no request is
    sent and the elements are left as they were; a [TypeError] (or an
    [HTTPError]) ends in [SystemExit(-1)] with the error printed to
    [sys.stderr], an exception outside the [except] clause is passed on
    as it is. *)
Theorem copy_udf_assignment_raises (self : CopyField)
    (changelog_f : option string) (st : State) (e : exn) :
  ne' (s_field self) (old_dest_udf self) = true →
  udf_setitem (store st (d_elt self)) (d_udf_name self) (s_field self)
    = Raise e →
  let out := copy_udf' self changelog_f st in
  requests out.2 = requests st
  ∧ store out.2 = store st
  ∧ (if caught e then
       out.1 = Raise (SystemExit "-1")
       ∧ stderr out.2
         = (stderr st ++ ["Error while updating element: " +:+ exn_msg e])%list
     else out.1 = Raise e ∧ stderr out.2 = stderr st).
Proof.
  intros Hne Hset. unfold Epp.copy_udf. rewrite Hne.
  unfold bindM, _log_before_change, _set_udf, try_except, bindM,
    setitem_udf, Epp.put, write, log, get, ret, _log_after_change,
    print_stderr, raise.
  destruct changelog_f; simpl; rewrite Hset; simpl;
    destruct (caught e); simpl; done.
Qed.

(** X21: a [CopyField] built with one element as source and
    destination and no destination name (or the name of the source
    field) copies nothing: [copy_udf] returns [False] and changes
    nothing, as long as a value is not different from itself. *)
Theorem copy_field_onto_itself (elt : nat) (field_name : string)
    (dest_name : option string) (changelog_f : option string) (st : State) :
  (∀ v, value_ne v v = false) →
  (truthy dest_name = false ∨ dest_name = Some field_name) →
  ∃ self,
    CopyField_init elt elt field_name dest_name st = (Ok self, st)
    ∧ d_udf_name self = field_name
    ∧ copy_udf' self changelog_f st = (Ok false, st).
Proof.
  intros Hrefl Hname. eexists. split; [done|].
  assert ((if truthy dest_name then default "" dest_name else field_name)
          = field_name) as Hd.
  { destruct Hname as [->| ->]; [done|]. by destruct field_name. }
  simpl. rewrite Hd. split; [done|].
  unfold Epp.copy_udf. simpl.
  destruct (_get_field (store st elt) field_name) as [v|]; simpl;
    [by rewrite Hrefl|done].
Qed.

End LimsMore.

Lemma copy_udf_refused_witness :
  let out := Epp.copy_udf string_ne id sample_setitem refusing_server
               "2013-05-01 12:00:00" (sample_copy (Some "new") (Some "ok"))
               (Some "changelog") sample_state in
  out.1 = Raise (Epp.SystemExit "-1")
  ∧ Epp.udf (Epp.store out.2 1) !! "Comment" = Some "new"
  ∧ Epp.stderr out.2 = ["Error while updating element: 400 Client Error"]
  ∧ length (Epp.logging out.2) = 1.
Proof.
  pose proof (copy_udf_refused string_ne id sample_setitem refusing_server
                "2013-05-01 12:00:00" (sample_copy (Some "new") (Some "ok"))
                (Some "changelog") sample_state _ _
                eq_refl eq_refl eq_refl eq_refl)
    as (H1 & H2 & _ & H4 & H5 & _).
  cbv zeta. rewrite H1, H2, H4, H5. by vm_compute.
Defined.

Lemma copy_udf_accepted_witness :
  let out := Epp.copy_udf string_ne id sample_setitem accepting_server
               "2013-05-01 12:00:00" (sample_copy (Some "new") (Some "ok"))
               None sample_state in
  out.1 = Ok true
  ∧ Epp.udf (Epp.store out.2 1) !! "Comment" = Some "new"
  ∧ Epp.stderr out.2 = []
  ∧ length (Epp.logging out.2) = 2.
Proof.
  pose proof (copy_udf_accepted string_ne id sample_setitem accepting_server
                "2013-05-01 12:00:00" (sample_copy (Some "new") (Some "ok"))
                None sample_state _ eq_refl eq_refl eq_refl)
    as (H1 & H2 & _ & H4 & H5).
  cbv zeta. rewrite H1, H2, H4, H5. by vm_compute.
Defined.

Lemma copy_udf_assignment_raises_witness :
  let out := Epp.copy_udf string_ne id rejecting_setitem accepting_server
               "2013-05-01 12:00:00" (sample_copy (Some "new") (Some "ok"))
               None sample_state in
  out.1 = Raise (Epp.SystemExit "-1")
  ∧ Epp.requests out.2 = []
  ∧ Epp.udf (Epp.store out.2 1) !! "Comment" = Some "ok".
Proof.
  pose proof (copy_udf_assignment_raises string_ne id rejecting_setitem
                accepting_server "2013-05-01 12:00:00"
                (sample_copy (Some "new") (Some "ok")) None sample_state _
                eq_refl eq_refl)
    as (H1 & H2 & H3 & _).
  cbv zeta. rewrite H1, H2, H3. by vm_compute.
Defined.

Lemma copy_field_onto_itself_witness :
  ∃ self,
    Epp.CopyField_init 0 0 "Comment" None sample_state = (Ok self, sample_state)
    ∧ Epp.d_udf_name self = "Comment"
    ∧ Epp.copy_udf string_ne id sample_setitem refusing_server
        "2013-05-01 12:00:00" self (Some "changelog") sample_state
      = (Ok false, sample_state).
Proof.
  apply (copy_field_onto_itself string_ne id sample_setitem refusing_server
           "2013-05-01 12:00:00" 0 "Comment" None (Some "changelog")
           sample_state).
  - intros v. unfold string_ne. by rewrite bool_decide_true.
  - by left.
Defined.
